(** * Teen Patti game round: a shallow embedding of the Game model
      ([models/Game.js]), the socket action handlers
      ([socket/socketHandler.js]), the ledger ([models/Transaction.js]),
      the chip account ([models/User.js]), the leave and start routes and
      the chip routes of the administration, with the properties of the
      round state machine checked against them. *)

From Stdlib Require Import ZArith List String Ascii Lia Bool SpecFloat.
From stdpp Require Import base numbers option list gmap strings pretty.

Open Scope Z_scope.

(** ** JavaScript arrays *)

Module JS.

(** [Array.prototype.sort] is stable, so its result is the one a stable
    insertion sort produces; [le x y] says the comparator does not put
    [y] before [x]. *)
Fixpoint insert_by {A} (le : A -> A -> bool) (x : A) (l : list A) : list A :=
  match l with
  | [] => [x]
  | y :: l' => if le x y then x :: l else y :: insert_by le x l'
  end.

Definition sort {A} (le : A -> A -> bool) (l : list A) : list A :=
  foldr (insert_by le) [] l.

(** [arr.indexOf(v)] on an array of numbers, [-1] written as [None]. *)
Fixpoint indexOf (l : list Z) (v : Z) : option nat :=
  match l with
  | [] => None
  | x :: l' => if Z.eqb x v then Some 0%nat else S <$> indexOf l' v
  end.

(** [arr.find((val, idx) => p(val, idx))], [undefined] written as [None]. *)
Fixpoint find_from {A} (p : A -> nat -> bool) (i : nat) (l : list A) : option A :=
  match l with
  | [] => None
  | x :: l' => if p x i then Some x else find_from p (S i) l'
  end.

Definition find {A} (p : A -> nat -> bool) (l : list A) : option A :=
  find_from p 0%nat l.

(** [arr.pop()]: the last element and the shortened array; the empty
    array yields [undefined] and stays empty. *)
Definition pop {A} (l : list A) : option A * list A :=
  match rev l with
  | [] => (None, [])
  | x :: r => (Some x, rev r)
  end.

End JS.

(** ** Cards and hands (models/Game.js) *)

Inductive Suit := hearts | diamonds | clubs | spades.
Inductive Rank := R2 | R3 | R4 | R5 | R6 | R7 | R8 | R9 | R10 | RJ | RQ | RK | RA.

Record Card := mkCard { suit : Suit; rank : Rank }.

Inductive HandRank :=
  high_card | pair | color | sequence | pure_sequence | trail.

#[global] Instance Suit_eq_dec : EqDecision Suit.
Proof. solve_decision. Defined.
#[global] Instance Rank_eq_dec : EqDecision Rank.
Proof. solve_decision. Defined.
#[global] Instance Card_eq_dec : EqDecision Card.
Proof. solve_decision. Defined.
#[global] Instance HandRank_eq_dec : EqDecision HandRank.
Proof. solve_decision. Defined.

(** The strings of the schema's [rank] enum; [evaluateHand] sorts them as
    strings. *)
Definition rankStr (r : Rank) : string :=
  match r with
  | R2 => "2" | R3 => "3" | R4 => "4" | R5 => "5" | R6 => "6" | R7 => "7"
  | R8 => "8" | R9 => "9" | R10 => "10" | RJ => "J" | RQ => "Q" | RK => "K"
  | RA => "A"
  end%string.

(** [getRankValue]: the table lookup. Every rank of the enum is in the
    table, so the [|| 0] fallback is never taken. *)
Definition getRankValue (r : Rank) : Z :=
  match r with
  | R2 => 2 | R3 => 3 | R4 => 4 | R5 => 5 | R6 => 6 | R7 => 7 | R8 => 8
  | R9 => 9 | R10 => 10 | RJ => 11 | RQ => 12 | RK => 13 | RA => 14
  end.

Definition suits_enum : list Suit := [hearts; diamonds; clubs; spades].
Definition ranks_enum : list Rank :=
  [R2; R3; R4; R5; R6; R7; R8; R9; R10; RJ; RQ; RK; RA].

(** [createDeck]: suits outside, ranks inside, pushed in that order. *)
Definition createDeck : list Card :=
  s ← suits_enum; r ← ranks_enum; [mkCard s r].

(** [evaluateHand]. The default [sort()] compares the rank strings. *)
Definition evaluateHand (cards : list Card) : HandRank :=
  if negb (length cards =? 3)%nat then high_card else
  let ranks := JS.sort (fun a b => String.leb (rankStr a) (rankStr b)) (rank <$> cards) in
  let suits := suit <$> cards in
  match ranks, suits with
  | [r0; r1; r2], [s0; s1; s2] =>
      if bool_decide (r0 = r1) && bool_decide (r1 = r2) then trail else
      let rankValues := JS.sort Z.leb (getRankValue <$> ranks) in
      match rankValues with
      | [v0; v1; v2] =>
          let isSequence := (v1 =? v0 + 1) && (v2 =? v1 + 1) in
          if isSequence && bool_decide (s0 = s1) && bool_decide (s1 = s2)
          then pure_sequence
          else if isSequence then sequence
          else if bool_decide (s0 = s1) && bool_decide (s1 = s2) then color
          else if bool_decide (r0 = r1) || bool_decide (r1 = r2) || bool_decide (r0 = r2)
          then pair
          else high_card
      | _ => high_card
      end
  | _, _ => high_card
  end.

(** [getHandValue]. A JavaScript number that is [NaN] (an operand was
    [undefined]) is [None]. *)
Definition getHandValue (cards : list Card) (handRank : HandRank) : option Z :=
  let rankValues := JS.sort Z.geb ((getRankValue ∘ rank) <$> cards) in
  match handRank with
  | trail => v0 ← rankValues !! 0%nat; Some (6000 + v0)
  | pure_sequence => v2 ← rankValues !! 2%nat; Some (5000 + v2)
  | sequence => v2 ← rankValues !! 2%nat; Some (4000 + v2)
  | color =>
      v0 ← rankValues !! 0%nat; v1 ← rankValues !! 1%nat; v2 ← rankValues !! 2%nat;
      Some (3000 + v0 * 100 + v1 * 10 + v2)
  | pair =>
      let pairValue :=
        JS.find (fun val idx => negb (bool_decide (JS.indexOf rankValues val = Some idx)))
                rankValues in
      let kicker :=
        JS.find (fun val _ => negb (bool_decide (Some val = pairValue))) rankValues in
      p ← pairValue; k ← kicker; Some (2000 + p * 100 + k)
  | high_card =>
      v0 ← rankValues !! 0%nat; v1 ← rankValues !! 1%nat; v2 ← rankValues !! 2%nat;
      Some (v0 * 100 + v1 * 10 + v2)
  end.

(** The value [dealCards] stores for a hand: [getHandValue] at the rank
    [evaluateHand] gave. *)
Definition handValueOf (cards : list Card) : option Z :=
  getHandValue cards (evaluateHand cards).

(** The order of the categories, weakest first. *)
Definition categoryIndex (h : HandRank) : Z :=
  match h with
  | high_card => 0 | pair => 1 | color => 2
  | sequence => 3 | pure_sequence => 4 | trail => 5
  end.

(** ** JavaScript numbers at the one place the code leaves the integers

    [Math.floor(game.pot * commissionRate)] multiplies in IEEE 754 binary64;
    [SpecFloat] is that arithmetic on mantissa and exponent. All other
    amounts of the game are integers and are kept in [Z]. *)

Module Number.

Definition prec : Z := 53.
Definition emax : Z := 1024.

Definition of_Z (z : Z) : spec_float := binary_normalize prec emax z 0 false.

Definition mul (x y : spec_float) : spec_float := SFmul prec emax x y.

(** The literal [0.03]: 0x1.eb851eb851eb8p-6. *)
Definition lit_0_03 : spec_float :=
  S754_finite false 0x1eb851eb851eb8 (-58).

(** [Math.floor] of a finite number; [NaN] and the infinities have no
    integer value. *)
Definition floor (x : spec_float) : option Z :=
  match x with
  | S754_zero _ => Some 0
  | S754_finite s m e => Some (Z.shiftl (cond_Zopp s (Z.pos m)) e)
  | _ => None
  end.

(** Falsy numbers for [||]: zero and [NaN]. *)
Definition falsy (x : spec_float) : bool :=
  match x with
  | S754_zero _ | S754_nan => true
  | _ => false
  end.

End Number.

(** ** Documents *)

Abbreviation UserId := nat.

Inductive Status := waiting | active | completed | cancelled.

#[global] Instance Status_eq_dec : EqDecision Status.
Proof. solve_decision. Defined.

Module Player.
(** An element of [game.players]. [user] is the referenced user's
    [_id]; [cards] can hold [undefined] ([None]) because [dealCards]
    pushes whatever [pop()] returned. *)
Record t := mk {
  user : UserId;
  position : nat;
  cards : list (option Card);
  handRank : HandRank;
  handValue : option Z;
  isPlaying : bool;
  isFolded : bool;
  isBlind : bool;
  currentBet : Z;
  totalBet : Z;
  lastAction : option string
}.

Definition set_position (v : nat) (p : t) : t :=
  mk (user p) v (cards p) (handRank p) (handValue p) (isPlaying p)
     (isFolded p) (isBlind p) (currentBet p) (totalBet p) (lastAction p).
Definition set_hand (cs : list (option Card)) (r : HandRank) (v : option Z) (p : t) : t :=
  mk (user p) (position p) cs r v (isPlaying p)
     (isFolded p) (isBlind p) (currentBet p) (totalBet p) (lastAction p).
Definition set_cards (cs : list (option Card)) (p : t) : t :=
  mk (user p) (position p) cs (handRank p) (handValue p) (isPlaying p)
     (isFolded p) (isBlind p) (currentBet p) (totalBet p) (lastAction p).
Definition set_isPlaying (v : bool) (p : t) : t :=
  mk (user p) (position p) (cards p) (handRank p) (handValue p) v
     (isFolded p) (isBlind p) (currentBet p) (totalBet p) (lastAction p).
Definition set_isFolded (v : bool) (p : t) : t :=
  mk (user p) (position p) (cards p) (handRank p) (handValue p) (isPlaying p)
     v (isBlind p) (currentBet p) (totalBet p) (lastAction p).
Definition set_isBlind (v : bool) (p : t) : t :=
  mk (user p) (position p) (cards p) (handRank p) (handValue p) (isPlaying p)
     (isFolded p) v (currentBet p) (totalBet p) (lastAction p).
Definition set_currentBet (v : Z) (p : t) : t :=
  mk (user p) (position p) (cards p) (handRank p) (handValue p) (isPlaying p)
     (isFolded p) (isBlind p) v (totalBet p) (lastAction p).
Definition set_totalBet (v : Z) (p : t) : t :=
  mk (user p) (position p) (cards p) (handRank p) (handValue p) (isPlaying p)
     (isFolded p) (isBlind p) (currentBet p) v (lastAction p).
Definition set_lastAction (v : string) (p : t) : t :=
  mk (user p) (position p) (cards p) (handRank p) (handValue p) (isPlaying p)
     (isFolded p) (isBlind p) (currentBet p) (totalBet p) (Some v).

(** The test [!p.isFolded && p.isPlaying] of every filter in the code. *)
Definition inHand (p : t) : bool := negb (isFolded p) && isPlaying p.

(** What [addPlayer] pushes; the other paths take the schema defaults. *)
Definition fresh (userId : UserId) (pos : nat) : t :=
  mk userId pos [] high_card (Some 0) true false true 0 0 None.
End Player.

Module History.
(** An element of [game.gameHistory]; the [timestamp] is left out. *)
Record t := mk {
  action : string;
  player : UserId;
  amount : Z;
  details : string
}.
End History.

Module Game.
(** The game document; the dates ([startedAt], [completedAt]) and the
    fields no modelled function reads or writes are left out. *)
Record t := mk {
  _id : nat;
  status : Status;
  maxPlayers : nat;
  minBet : Z;
  maxBet : Z;
  currentBet : Z;
  pot : Z;
  players : list Player.t;
  currentPlayerIndex : nat;
  deck : list Card;
  winner : option UserId;
  winningHand : option HandRank;
  gameHistory : list History.t
}.

Definition set_status (v : Status) (g : t) : t :=
  mk (_id g) v (maxPlayers g) (minBet g) (maxBet g) (currentBet g) (pot g)
     (players g) (currentPlayerIndex g) (deck g) (winner g) (winningHand g)
     (gameHistory g).
Definition set_currentBet (v : Z) (g : t) : t :=
  mk (_id g) (status g) (maxPlayers g) (minBet g) (maxBet g) v (pot g)
     (players g) (currentPlayerIndex g) (deck g) (winner g) (winningHand g)
     (gameHistory g).
Definition set_pot (v : Z) (g : t) : t :=
  mk (_id g) (status g) (maxPlayers g) (minBet g) (maxBet g) (currentBet g) v
     (players g) (currentPlayerIndex g) (deck g) (winner g) (winningHand g)
     (gameHistory g).
Definition set_players (v : list Player.t) (g : t) : t :=
  mk (_id g) (status g) (maxPlayers g) (minBet g) (maxBet g) (currentBet g) (pot g)
     v (currentPlayerIndex g) (deck g) (winner g) (winningHand g)
     (gameHistory g).
Definition set_currentPlayerIndex (v : nat) (g : t) : t :=
  mk (_id g) (status g) (maxPlayers g) (minBet g) (maxBet g) (currentBet g) (pot g)
     (players g) v (deck g) (winner g) (winningHand g)
     (gameHistory g).
Definition set_deck (v : list Card) (g : t) : t :=
  mk (_id g) (status g) (maxPlayers g) (minBet g) (maxBet g) (currentBet g) (pot g)
     (players g) (currentPlayerIndex g) v (winner g) (winningHand g)
     (gameHistory g).
Definition set_winner (v : option UserId) (g : t) : t :=
  mk (_id g) (status g) (maxPlayers g) (minBet g) (maxBet g) (currentBet g) (pot g)
     (players g) (currentPlayerIndex g) (deck g) v (winningHand g)
     (gameHistory g).
Definition set_winningHand (v : option HandRank) (g : t) : t :=
  mk (_id g) (status g) (maxPlayers g) (minBet g) (maxBet g) (currentBet g) (pot g)
     (players g) (currentPlayerIndex g) (deck g) (winner g) v
     (gameHistory g).
Definition set_gameHistory (v : list History.t) (g : t) : t :=
  mk (_id g) (status g) (maxPlayers g) (minBet g) (maxBet g) (currentBet g) (pot g)
     (players g) (currentPlayerIndex g) (deck g) (winner g) (winningHand g)
     v.

(** [game.players[i].f = v]: the player objects are owned by the array,
    so a write through [const player = game.players[i]] is a write at
    index [i]. *)
Definition update_player (i : nat) (f : Player.t -> Player.t) (g : t) : t :=
  set_players (alter f i (players g)) g.
End Game.

Module User.
(** The fields of the user document that the game code touches. *)
Record t := mk {
  username : string;
  chips : Z;
  gamesWon : Z;
  gamesPlayed : Z;
  totalChipsWon : Z;
  totalChipsLost : Z;
  currentGameId : option nat
}.

Definition set_chips (v : Z) (u : t) : t :=
  mk (username u) v (gamesWon u) (gamesPlayed u) (totalChipsWon u)
     (totalChipsLost u) (currentGameId u).
Definition set_currentGameId (v : option nat) (u : t) : t :=
  mk (username u) (chips u) (gamesWon u) (gamesPlayed u) (totalChipsWon u)
     (totalChipsLost u) v.
End User.

Module Transaction.
(** A ledger record; the random [transactionId], the description and
    the metadata are left out. *)
Record t := mk {
  type : string;
  to : option UserId;
  amount : Z;
  balanceBefore : Z;
  balanceAfter : Z;
  gameId : option nat
}.
End Transaction.

(** ** The stores and a handler run *)

(** The collections behind the models and the process environment. One
    game document is stored; [Game.findOne({ gameId })] and
    [Game.findById] find it by its id. *)
Record World := mkWorld {
  users : gmap UserId User.t;
  transactions : list Transaction.t;
  games : Game.t;
  PLATFORM_COMMISSION_RATE : option spec_float
}.

(** The cards of a player as a client sees them. *)
Inductive ClientCard :=
| visible (c : option Card)
| hidden.

Record PlayerView := mkView {
  view_player : UserId;
  view_cards : list ClientCard;
  view_isBlind : bool;
  view_lastAction : option string
}.

(** What a handler sends: [socket.emit('error', ...)] to the acting
    socket and the [player_action] broadcasts to the room. *)
Inductive Event :=
| error (message : string)
| player_action (playerId : UserId) (action : string) (amount : option Z)
    (gameState : list PlayerView)
| player_action_show (playerId : UserId) (cards : list (option Card))
    (shownRank : HandRank) (gameState : list PlayerView).

Inductive Exn :=
| Error (message : string)
| TypeError (message : string)
| Diverges.

(** The state of one run of a handler: the loaded [game] object, which the
    handler mutates in place and which reaches the store only through
    [game.save()], the stores, and what was emitted so far. Saving is
    taken to succeed. *)
Record Run := mkRun {
  game : Game.t;
  world : World;
  emitted : list Event
}.

Definition M (A : Type) : Type := Run -> (Exn + A) * Run.

#[global] Instance M_ret : MRet M := fun A a s => (inr a, s).
#[global] Instance M_bind : MBind M := fun A B f m s =>
  match m s with
  | (inr a, s') => f a s'
  | (inl e, s') => (inl e, s')
  end.

Definition throw {A} (e : Exn) : M A := fun s => (inl e, s).
Definition getGame : M Game.t := fun s => (inr (game s), s).
Definition getWorld : M World := fun s => (inr (world s), s).
Definition modifyGame (f : Game.t -> Game.t) : M unit :=
  fun s => (inr tt, mkRun (f (game s)) (world s) (emitted s)).
Definition modifyWorld (f : World -> World) : M unit :=
  fun s => (inr tt, mkRun (game s) (f (world s)) (emitted s)).
Definition emit (e : Event) : M unit :=
  fun s => (inr tt, mkRun (game s) (world s) (emitted s ++ [e])).

(** [try { body } catch (error) { console.error(...) }]. *)
Definition try_catch (body : M unit) : M unit := fun s =>
  match body s with
  | (inl _, s') => (inr tt, s')
  | r => r
  end.

(** [await Promise.all(items.map(async item => body))]: every callback
    runs, a rejection of one does not stop the others, and the first
    rejection is what the [await] throws. The callbacks of the code work
    on the documents of different users; they are run in array order. *)
Fixpoint Promise_all {A} (body : A -> M unit) (items : list A) : M unit :=
  match items with
  | [] => mret tt
  | x :: xs => fun s =>
      match body x s with
      | (inr _, s') => Promise_all body xs s'
      | (inl e, s') => (inl e, snd (Promise_all body xs s'))
      end
  end.

Definition set_users (v : gmap UserId User.t) (w : World) : World :=
  mkWorld v (transactions w) (games w) (PLATFORM_COMMISSION_RATE w).
Definition set_transactions (v : list Transaction.t) (w : World) : World :=
  mkWorld (users w) v (games w) (PLATFORM_COMMISSION_RATE w).
Definition set_games (v : Game.t) (w : World) : World :=
  mkWorld (users w) (transactions w) v (PLATFORM_COMMISSION_RATE w).

(** [game.save()]. *)
Definition save : M unit :=
  g ← getGame; modifyWorld (set_games g).

(** ** models/User.js *)

(** [await User.findById(id)] followed by the first use of the result: a
    missing user is [null], and reading a field of it throws. *)
Definition User_findById (id : UserId) : M User.t :=
  w ← getWorld;
  match users w !! id with
  | Some u => mret u
  | None => throw (TypeError "Cannot read properties of null")
  end.

Definition User_save (id : UserId) (u : User.t) : M unit :=
  modifyWorld (fun w => set_users (<[id := u]> (users w)) w).

(** [user.updateChips(amount, operation)] on the document of user [id]. *)
Definition updateChips (id : UserId) (amount : Z) (operation : string) : M unit :=
  u ← User_findById id;
  if bool_decide (operation = "add"%string) then
    User_save id (User.set_chips (User.chips u + amount) u)
  else if bool_decide (operation = "subtract"%string) then
    if User.chips u <? amount then throw (Error "Insufficient chips")
    else User_save id (User.set_chips (User.chips u - amount) u)
  else User_save id (User.set_chips amount u).

(** ** models/Transaction.js *)

Definition credit_types : list string :=
  ["game_win"; "transfer_receive"; "admin_add"; "registration_bonus"; "refund"]%string.
Definition debit_types : list string :=
  ["game_loss"; "transfer_send"; "admin_deduct"; "commission_deduct"]%string.

(** [Transaction.createTransaction]: it computes the new balance of the
    recipient, writes it to the user document, and stores the record. *)
Definition createTransaction (type : string) (to : UserId) (amount : Z)
    (gameId : option nat) : M unit :=
  w ← getWorld;
  match users w !! to with
  | None => throw (Error "Recipient not found")
  | Some recipient =>
      let balanceBefore := User.chips recipient in
      balanceAfter ←
        (if bool_decide (type ∈ credit_types) then mret (balanceBefore + amount)
         else if bool_decide (type ∈ debit_types) then
           if balanceBefore - amount <? 0 then throw (Error "Insufficient balance")
           else mret (balanceBefore - amount)
         else mret balanceBefore);
      modifyWorld (fun w => set_users (alter (User.set_chips balanceAfter) to (users w)) w);;
      modifyWorld (fun w => set_transactions
        (transactions w ++
           [Transaction.mk type (Some to) amount balanceBefore balanceAfter gameId]) w)
  end.

Definition createGameWinTransaction (userId : UserId) (amount : Z) (gameId : nat) : M unit :=
  createTransaction "game_win" userId amount (Some gameId).

Definition createGameLossTransaction (userId : UserId) (amount : Z) (gameId : nat) : M unit :=
  createTransaction "game_loss" userId amount (Some gameId).

Definition createCommissionTransaction (amount : Z) (gameId : nat) : M unit :=
  modifyWorld (fun w => set_transactions
    (transactions w ++
       [Transaction.mk "commission_deduct" None amount 0 0 (Some gameId)]) w).

(** [Transaction.createTransferTransaction(fromUserId, toUserId, amount)]. *)
Definition createTransferTransaction (fromUserId toUserId : UserId) (amount : Z) : M unit :=
  w ← getWorld;
  match users w !! fromUserId with
  | None => throw (Error "Insufficient balance")
  | Some sender =>
      if User.chips sender <? amount then throw (Error "Insufficient balance")
      else
        createTransaction "transfer_send" fromUserId amount None;;
        createTransaction "transfer_receive" toUserId amount None
  end.

(** [Transaction.createAdminTransaction(adminId, userId, amount, type)];
    the [adminId] goes to the metadata only. *)
Definition createAdminTransaction (adminId userId : UserId) (amount : Z) (type : string)
    : M unit :=
  if negb (bool_decide (type ∈ ["admin_add"; "admin_deduct"]%string)) then
    throw (Error "Invalid admin transaction type")
  else createTransaction type userId amount None.

(** ** models/Game.js: the methods *)

Definition getPlayer (i : nat) : M Player.t :=
  g ← getGame;
  match Game.players g !! i with
  | Some p => mret p
  | None => throw (TypeError "Cannot read properties of undefined")
  end.

Definition modifyPlayer (i : nat) (f : Player.t -> Player.t) : M unit :=
  modifyGame (Game.update_player i f).

(** [game.addToHistory(action, playerId, amount, details)]. *)
Definition addToHistory (action : string) (playerId : UserId) (amount : Z)
    (details : string) : M unit :=
  modifyGame (fun g =>
    Game.set_gameHistory (Game.gameHistory g ++ [History.mk action playerId amount details]) g).

(** [game.addPlayer(userId)]. *)
Definition addPlayer (userId : UserId) : M unit :=
  g ← getGame;
  if (Game.maxPlayers g <=? length (Game.players g))%nat then throw (Error "Game is full")
  else if negb (bool_decide (Game.status g = waiting)) then
    throw (Error "Cannot join game in progress")
  else if bool_decide (Exists (fun p => Player.user p = userId) (Game.players g)) then
    throw (Error "Player already in game")
  else
    modifyGame (fun g => Game.set_players
      (Game.players g ++ [Player.fresh userId (length (Game.players g))]) g);;
    save.

(** [players.forEach((player, index) => { player.position = index })]. *)
Definition reposition (players : list Player.t) : list Player.t :=
  imap (fun index player => Player.set_position index player) players.

(** [game.removePlayer(userId)]. *)
Definition removePlayer (userId : UserId) : M unit :=
  modifyGame (fun g => Game.set_players
    (filter (fun p => Player.user p ≠ userId) (Game.players g)) g);;
  modifyGame (fun g => Game.set_players (reposition (Game.players g)) g);;
  g ← getGame;
  (if (length (Game.players g) <? 2)%nat && bool_decide (Game.status g = active)
   then modifyGame (Game.set_status cancelled) else mret tt);;
  save.

(** [evaluateHand] and [getHandValue] on an array that may hold
    [undefined]: reading [c.rank] of it throws. *)
Definition evaluateHand_js (cards : list (option Card)) : Exn + HandRank :=
  if negb (length cards =? 3)%nat then inr high_card else
  match mapM id cards with
  | Some cs => inr (evaluateHand cs)
  | None => inl (TypeError "Cannot read properties of undefined (reading 'rank')")
  end.

Definition getHandValue_js (cards : list (option Card)) (handRank : HandRank)
    : Exn + option Z :=
  match mapM id cards with
  | Some cs => inr (getHandValue cs handRank)
  | None => inl (TypeError "Cannot read properties of undefined (reading 'rank')")
  end.

(** The three [player.cards.push(this.deck.pop())] of one player. *)
Definition dealHand (deck : list Card) : list (option Card) * list Card :=
  let '(c1, d1) := JS.pop deck in
  let '(c2, d2) := JS.pop d1 in
  let '(c3, d3) := JS.pop d2 in
  ([c1; c2; c3], d3).

(** The [forEach] of [dealCards] over the players, the deck threaded
    through it. An exception ends the loop and leaves what was written
    before it. *)
Fixpoint dealPlayers (players : list Player.t) (deck : list Card)
    : option Exn * (list Player.t * list Card) :=
  match players with
  | [] => (None, ([], deck))
  | p :: ps =>
      let '(cs, deck') := dealHand deck in
      match evaluateHand_js cs with
      | inl e => (Some e, (Player.set_cards cs p :: ps, deck'))
      | inr r =>
          match getHandValue_js cs r with
          | inl e => (Some e, (Player.set_hand cs r (Player.handValue p) p :: ps, deck'))
          | inr v =>
              let '(e, (ps', d')) := dealPlayers ps deck' in
              (e, (Player.set_hand cs r v p :: ps', d'))
          end
      end
  end.

Section Dealing.

(** [Math.floor(Math.random() * (i + 1))] at step [i] of the shuffle. *)
Variable random_index : nat -> nat.

(** [[a[i], a[j]] = [a[j], a[i]]] for indices inside the array. *)
Definition swap {A} (i j : nat) (a : list A) : list A :=
  match a !! i, a !! j with
  | Some x, Some y => <[j := x]> (<[i := y]> a)
  | _, _ => a
  end.

Fixpoint shuffle_from {A} (i : nat) (a : list A) : list A :=
  match i with
  | O => a
  | S i' => shuffle_from i' (swap i (random_index i) a)
  end.

(** [shuffleDeck]: Fisher-Yates from the last index down to 1 on a copy. *)
Definition shuffleDeck {A} (deck : list A) : list A :=
  shuffle_from (length deck - 1) deck.

(** [game.dealCards()]. *)
Definition dealCards : M unit :=
  modifyGame (Game.set_deck (shuffleDeck createDeck));;
  g ← getGame;
  let '(e, (ps, d)) := dealPlayers (Game.players g) (Game.deck g) in
  modifyGame (fun g => Game.set_deck d (Game.set_players ps g));;
  match e with
  | Some e => throw e
  | None => mret tt
  end.

(** [game.startGame()]. *)
Definition startGame : M unit :=
  g ← getGame;
  if (length (Game.players g) <? 2)%nat then
    throw (Error "Need at least 2 players to start")
  else
    modifyGame (Game.set_status active);;
    dealCards;;
    save.

End Dealing.

(** [a > b] on numbers that may be [NaN]. *)
Definition num_gt (a b : option Z) : bool :=
  match a, b with
  | Some x, Some y => y <? x
  | _, _ => false
  end.

(** [game.determineWinner()]; [undefined] is [None]. *)
Definition determineWinner (g : Game.t) : option Player.t :=
  let activePlayers := filter (fun p => Player.inHand p = true) (Game.players g) in
  if (length activePlayers =? 1)%nat then activePlayers !! 0%nat
  else
    foldl (fun winner player =>
             match winner with
             | Some w =>
                 if num_gt (Player.handValue player) (Player.handValue w)
                 then Some player else winner
             | None => None
             end)
          (activePlayers !! 0%nat) activePlayers.

(** ** socket/socketHandler.js *)

(** [formatGameForClient(game, userId)]: the players of the copy sent to
    a client. *)
Definition formatGameForClient (g : Game.t) (userId : UserId) : list PlayerView :=
  (fun player =>
     mkView (Player.user player)
            (if bool_decide (Player.user player ≠ userId)
             then replicate (length (Player.cards player)) hidden
             else visible <$> Player.cards player)
            (Player.isBlind player)
            (Player.lastAction player))
  <$> Game.players g.

(** The [while] loop of [moveToNextPlayer]; [fuel] bounds the number of
    times its body runs, and running out of it is [Diverges]. *)
Fixpoint nextActive (fuel : nat) (players : list Player.t) (nextIndex : nat) : Exn + nat :=
  match players !! nextIndex with
  | None => inl (TypeError "Cannot read properties of undefined (reading 'isFolded')")
  | Some p =>
      if Player.isFolded p || negb (Player.isPlaying p) then
        match fuel with
        | O => inl Diverges
        | S fuel' => nextActive fuel' players ((nextIndex + 1) mod length players)%nat
        end
      else inr nextIndex
  end.

(** [moveToNextPlayer(game)]. *)
Definition moveToNextPlayer : M unit :=
  g ← getGame;
  let activePlayers := filter (fun p => Player.inHand p = true) (Game.players g) in
  if (length activePlayers <=? 1)%nat then mret tt
  else
    let n := length (Game.players g) in
    match nextActive n (Game.players g) ((Game.currentPlayerIndex g + 1) mod n)%nat with
    | inr nextIndex => modifyGame (Game.set_currentPlayerIndex nextIndex)
    | inl e => throw e
    end.

(** [parseFloat(process.env.PLATFORM_COMMISSION_RATE) || 0.03]. *)
Definition commissionRate (w : World) : spec_float :=
  match PLATFORM_COMMISSION_RATE w with
  | Some r => if Number.falsy r then Number.lit_0_03 else r
  | None => Number.lit_0_03
  end.

(** [Math.floor(game.pot * commissionRate)]. *)
Definition commissionOf (rate : spec_float) (pot : Z) : option Z :=
  Number.floor (Number.mul (Number.of_Z pot) rate).

(** [endGame(game, winner)]. A commission that is not finite would make
    the balance not finite, which the store refuses: it is an exception
    inside the [try]. The [game_ended] notifications go to the sockets of
    the connection registry and change no document; they are left out. *)
Definition endGame (winner : Player.t) : M unit :=
  try_catch (
    modifyGame (fun g =>
      Game.set_winningHand (Some (Player.handRank winner))
        (Game.set_winner (Some (Player.user winner))
          (Game.set_status completed g)));;
    w ← getWorld;
    g ← getGame;
    match commissionOf (commissionRate w) (Game.pot g) with
    | None => throw (Error "commission is not finite")
    | Some commission =>
        let winnings := Game.pot g - commission in
        updateChips (Player.user winner) winnings "add";;
        winnerUser ← User_findById (Player.user winner);
        User_save (Player.user winner)
          (User.mk (User.username winnerUser) (User.chips winnerUser)
             (User.gamesWon winnerUser + 1) (User.gamesPlayed winnerUser + 1)
             (User.totalChipsWon winnerUser + winnings)
             (User.totalChipsLost winnerUser) (User.currentGameId winnerUser));;
        Promise_all (fun player =>
            user ← User_findById (Player.user player);
            User_save (Player.user player)
              (User.mk (User.username user) (User.chips user)
                 (User.gamesWon user) (User.gamesPlayed user + 1)
                 (User.totalChipsWon user)
                 (if bool_decide (Player.user player ≠ Player.user winner)
                  then User.totalChipsLost user + Player.totalBet player
                  else User.totalChipsLost user)
                 None))
          (Game.players g);;
        createGameWinTransaction (Player.user winner) winnings (Game._id g);;
        createCommissionTransaction commission (Game._id g);;
        Promise_all (fun player =>
            if bool_decide (Player.user player ≠ Player.user winner)
               && (0 <? Player.totalBet player)
            then createGameLossTransaction (Player.user player) (Player.totalBet player)
                   (Game._id g)
            else mret tt)
          (Game.players g);;
        save
    end).

Definition broadcast (socketUserId : UserId) (action : string) (amount : option Z) : M unit :=
  g ← getGame;
  emit (player_action socketUserId action amount (formatGameForClient g socketUserId)).

(** [handleFold]. *)
Definition handleFold (socketUserId : UserId) (playerIndex : nat) : M unit :=
  player ← getPlayer playerIndex;
  modifyPlayer playerIndex (fun p =>
    Player.set_lastAction "fold" (Player.set_isPlaying false (Player.set_isFolded true p)));;
  user ← User_findById (Player.user player);
  addToHistory "fold" (Player.user player) 0 (User.username user +:+ " folded");;
  g ← getGame;
  let activePlayers := filter (fun p => Player.inHand p = true) (Game.players g) in
  (if (length activePlayers =? 1)%nat then
     match activePlayers !! 0%nat with
     | Some winner => endGame winner
     | None => mret tt
     end
   else moveToNextPlayer;; save);;
  broadcast socketUserId "fold" None.

(** [handleCall]. *)
Definition handleCall (socketUserId : UserId) (playerIndex : nat) : M unit :=
  player ← getPlayer playerIndex;
  user ← User_findById (Player.user player);
  g ← getGame;
  let callAmount := Game.currentBet g - Player.currentBet player in
  if User.chips user <? callAmount then emit (error "Insufficient chips to call")
  else
    updateChips (Player.user player) callAmount "subtract";;
    modifyPlayer playerIndex (fun p =>
      Player.set_lastAction "call"
        (Player.set_totalBet (Player.totalBet p + callAmount)
          (Player.set_currentBet (Player.currentBet p + callAmount) p)));;
    modifyGame (fun g => Game.set_pot (Game.pot g + callAmount) g);;
    addToHistory "call" (Player.user player) callAmount
      (User.username user +:+ " called " +:+ pretty callAmount);;
    moveToNextPlayer;;
    save;;
    broadcast socketUserId "call" (Some callAmount).

(** [handleRaise]. *)
Definition handleRaise (socketUserId : UserId) (playerIndex : nat) (raiseAmount : Z) : M unit :=
  player ← getPlayer playerIndex;
  user ← User_findById (Player.user player);
  g ← getGame;
  if (raiseAmount <? Game.minBet g) || (Game.maxBet g <? raiseAmount) then
    emit (error ("Raise amount must be between " +:+ pretty (Game.minBet g)
                 +:+ " and " +:+ pretty (Game.maxBet g)))
  else
    let totalRequired := Game.currentBet g - Player.currentBet player + raiseAmount in
    if User.chips user <? totalRequired then emit (error "Insufficient chips to raise")
    else
      updateChips (Player.user player) totalRequired "subtract";;
      modifyPlayer playerIndex (fun p =>
        Player.set_lastAction "raise"
          (Player.set_totalBet (Player.totalBet p + totalRequired)
            (Player.set_currentBet (Player.currentBet p + totalRequired) p)));;
      modifyGame (fun g =>
        Game.set_pot (Game.pot g + totalRequired)
          (Game.set_currentBet (Game.currentBet g + raiseAmount) g));;
      addToHistory "raise" (Player.user player) totalRequired
        (User.username user +:+ " raised by " +:+ pretty raiseAmount);;
      moveToNextPlayer;;
      save;;
      broadcast socketUserId "raise" (Some raiseAmount).

(** [handleCheck]. *)
Definition handleCheck (socketUserId : UserId) (playerIndex : nat) : M unit :=
  player ← getPlayer playerIndex;
  g ← getGame;
  if Player.currentBet player <? Game.currentBet g then
    emit (error "Cannot check - must call or raise")
  else
    modifyPlayer playerIndex (Player.set_lastAction "check");;
    user ← User_findById (Player.user player);
    addToHistory "check" (Player.user player) 0 (User.username user +:+ " checked");;
    moveToNextPlayer;;
    save;;
    broadcast socketUserId "check" None.

(** [handleShow]. *)
Definition handleShow (socketUserId : UserId) (playerIndex : nat) : M unit :=
  player ← getPlayer playerIndex;
  modifyPlayer playerIndex (fun p => Player.set_lastAction "show" (Player.set_isBlind false p));;
  user ← User_findById (Player.user player);
  addToHistory "show" (Player.user player) 0 (User.username user +:+ " showed cards");;
  save;;
  g ← getGame;
  emit (player_action_show socketUserId (Player.cards player) (Player.handRank player)
          (formatGameForClient g socketUserId)).

(** [handleBlind]. *)
Definition handleBlind (socketUserId : UserId) (playerIndex : nat) : M unit :=
  player ← getPlayer playerIndex;
  user ← User_findById (Player.user player);
  g ← getGame;
  let blindAmount := Game.minBet g in
  if User.chips user <? blindAmount then emit (error "Insufficient chips for blind bet")
  else
    updateChips (Player.user player) blindAmount "subtract";;
    modifyPlayer playerIndex (fun p =>
      Player.set_isBlind true
        (Player.set_lastAction "blind"
          (Player.set_totalBet (Player.totalBet p + blindAmount)
            (Player.set_currentBet (Player.currentBet p + blindAmount) p))));;
    modifyGame (fun g => Game.set_pot (Game.pot g + blindAmount) g);;
    modifyGame (fun g =>
      if Game.currentBet g <? blindAmount then Game.set_currentBet blindAmount g else g);;
    addToHistory "blind" (Player.user player) blindAmount
      (User.username user +:+ " played blind for " +:+ pretty blindAmount);;
    moveToNextPlayer;;
    save;;
    broadcast socketUserId "blind" (Some blindAmount).

(** [game.players.findIndex(p => p.user._id.toString() === userId)]. *)
Definition findIndex (userId : UserId) (players : list Player.t) : option nat :=
  fst <$> list_find (fun p => Player.user p = userId) players.

(** The body of [handleGameAction] inside its [try]. *)
Definition gameAction (socketUserId : UserId) (gameId : nat) (action : string) (amount : Z)
    : M unit :=
  g ← getGame;
  if negb (bool_decide (Game._id g = gameId)) then emit (error "Game not found")
  else
    match findIndex socketUserId (Game.players g) with
    | None => emit (error "You are not in this game")
    | Some playerIndex =>
        if negb (bool_decide (Game.currentPlayerIndex g = playerIndex))
        then emit (error "Not your turn")
        else if bool_decide (action = "fold"%string) then handleFold socketUserId playerIndex
        else if bool_decide (action = "call"%string) then handleCall socketUserId playerIndex
        else if bool_decide (action = "raise"%string) then
          handleRaise socketUserId playerIndex amount
        else if bool_decide (action = "check"%string) then handleCheck socketUserId playerIndex
        else if bool_decide (action = "show"%string) then handleShow socketUserId playerIndex
        else if bool_decide (action = "blind"%string) then handleBlind socketUserId playerIndex
        else emit (error "Invalid action")
    end.

(** [handleGameAction(socket, data)]: the game is loaded from the store,
    the handler runs on the loaded object, and what it did not save is
    gone when it returns. *)
Definition handleGameAction (w : World) (socketUserId : UserId) (gameId : nat)
    (action : string) (amount : Z) : World * list Event :=
  let s0 := mkRun (games w) w [] in
  match gameAction socketUserId gameId action amount s0 with
  | (inr _, s) => (world s, emitted s)
  | (inl _, s) => (world s, emitted s ++ [error "Failed to process action"])
  end.

(** ** The leave route: [router.post('/leave', ...)] *)

Definition Response : Type := nat * string.

Definition leaveBody (reqUserId : UserId) : M Response :=
  reqUser ← User_findById reqUserId;
  g ← getGame;
  match User.currentGameId reqUser with
  | None => mret (400%nat, "You are not in any game"%string)
  | Some gid =>
      if negb (bool_decide (Game._id g = gid)) then
        modifyWorld (fun w =>
          set_users (alter (User.set_currentGameId None) reqUserId (users w)) w);;
        mret (404%nat, "Game not found"%string)
      else
        (if bool_decide (Game.status g = active) then
           match findIndex reqUserId (Game.players g) with
           | Some playerIndex =>
               modifyPlayer playerIndex (fun p =>
                 Player.set_isPlaying false (Player.set_isFolded true p));;
               addToHistory "fold" reqUserId 0
                 (User.username reqUser +:+ " left the game (folded)");;
               g ← getGame;
               let activePlayers :=
                 filter (fun p => Player.inHand p = true) (Game.players g) in
               (if (length activePlayers =? 1)%nat then
                  modifyGame (fun g =>
                    Game.set_winner (Player.user <$> activePlayers !! 0%nat)
                      (Game.set_status completed g))
                else mret tt);;
               save
           | None => mret tt
           end
         else removePlayer reqUserId);;
        modifyWorld (fun w =>
          set_users (alter (User.set_currentGameId None) reqUserId (users w)) w);;
        mret (200%nat, "Successfully left game"%string)
  end.

(** The route handler: the game of the requesting user is loaded, and an
    exception becomes the 500 response. *)
Definition leave (w : World) (reqUserId : UserId) : World * Response :=
  match leaveBody reqUserId (mkRun (games w) w []) with
  | (inr r, s) => (world s, r)
  | (inl _, s) => (world s, (500%nat, "Failed to leave game"%string))
  end.

(** ** The chip routes of the administration:
       [router.post('/users/:userId/add-chips', ...)] and
       [router.post('/users/:userId/deduct-chips', ...)] *)

(** The handlers past authentication. Of the validators the one of the
    [amount], an integer of at least 1, is kept, and the [reason] is
    taken to pass. The answer is the status with its message and the
    [newBalance] it reports. *)
Definition addChipsBody (adminId userId : UserId) (amount : Z)
    : M (Response * option Z) :=
  if amount <? 1 then mret ((400%nat, "Validation failed"%string), None) else
  w ← getWorld;
  match users w !! userId with
  | None => mret ((404%nat, "User not found"%string), None)
  | Some user =>
      createAdminTransaction adminId userId amount "admin_add";;
      mret ((200%nat, "Chips added successfully"%string), Some (User.chips user + amount))
  end.

Definition addChips (w : World) (adminId userId : UserId) (amount : Z)
    : World * (Response * option Z) :=
  match addChipsBody adminId userId amount (mkRun (games w) w []) with
  | (inr r, s) => (world s, r)
  | (inl _, s) => (world s, ((500%nat, "Failed to add chips"%string), None))
  end.

Definition deductChipsBody (adminId userId : UserId) (amount : Z)
    : M (Response * option Z) :=
  if amount <? 1 then mret ((400%nat, "Validation failed"%string), None) else
  w ← getWorld;
  match users w !! userId with
  | None => mret ((404%nat, "User not found"%string), None)
  | Some user =>
      if User.chips user <? amount then
        mret ((400%nat, "User has insufficient chips"%string), None)
      else
        createAdminTransaction adminId userId amount "admin_deduct";;
        mret ((200%nat, "Chips deducted successfully"%string),
              Some (User.chips user - amount))
  end.

Definition deductChips (w : World) (adminId userId : UserId) (amount : Z)
    : World * (Response * option Z) :=
  match deductChipsBody adminId userId amount (mkRun (games w) w []) with
  | (inr r, s) => (world s, r)
  | (inl _, s) => (world s, ((500%nat, "Failed to deduct chips"%string), None))
  end.

(** ** The start route: [router.post('/start/:gameId', ...)] *)

(** The [for] loop of the route over the players: the first one whose
    chips are below [minBet] ends the request with a 400. *)
Fixpoint firstShort (minBet : Z) (players : list Player.t) : M (option Response) :=
  match players with
  | [] => mret None
  | player :: rest =>
      user ← User_findById (Player.user player);
      if User.chips user <? minBet then
        mret (Some (400%nat,
                    "Player " +:+ User.username user +:+ " has insufficient chips"))
      else firstShort minBet rest
  end.

Section Starting.

(** The draws of the shuffle, as in [Dealing]. *)
Variable random_index : nat -> nat.

(** [createdBy] is the field of that name of the game document; the
    route is the only place that reads it. *)
Definition startBody (createdBy reqUserId : UserId) (gameId : nat) : M Response :=
  g ← getGame;
  if negb (bool_decide (Game._id g = gameId)) then mret (404%nat, "Game not found"%string)
  else if negb (bool_decide (createdBy = reqUserId)) then
    mret (403%nat, "Only game creator can start the game"%string)
  else if negb (bool_decide (Game.status g = waiting)) then
    mret (400%nat, "Game has already started or ended"%string)
  else if (length (Game.players g) <? 2)%nat then
    mret (400%nat, "Need at least 2 players to start"%string)
  else
    short ← firstShort (Game.minBet g) (Game.players g);
    match short with
    | Some r => mret r
    | None => startGame random_index;; mret (200%nat, "Game started successfully"%string)
    end.

Definition start (createdBy : UserId) (w : World) (reqUserId : UserId) (gameId : nat)
    : World * Response :=
  match startBody createdBy reqUserId gameId (mkRun (games w) w []) with
  | (inr r, s) => (world s, r)
  | (inl _, s) => (world s, (500%nat, "Failed to start game"%string))
  end.

End Starting.

(** ** A two-player table used by the examples

    Alice (seat 0) and Bob (seat 1) sit at a table with [minBet = 10] and
    [maxBet = 100], each with 100 chips; the cards are dealt from the deck
    the shuffle leaves when every random index is its own position. *)

Definition alice : UserId := 1%nat.
Definition bob : UserId := 2%nat.
Definition table_id : nat := 7%nat.

Definition table_users : gmap UserId User.t :=
  {[ alice := User.mk "alice" 100 0 0 0 0 (Some table_id);
     bob := User.mk "bob" 100 0 0 0 0 (Some table_id) ]}.

Definition table_waiting : Game.t :=
  Game.mk table_id waiting 6 10 100 0 0
    [Player.fresh alice 0; Player.fresh bob 1] 0 [] None None [].

Definition world_waiting : World := mkWorld table_users [] table_waiting None.

(** The store after [game.startGame()] on the waiting table. *)
Definition world_started : World :=
  world (snd (startGame (fun i => i) (mkRun table_waiting world_waiting []))).

(** A sequence of [game_action] messages, each handled to its end before
    the next. *)
Definition play (w : World) (msgs : list (UserId * string * Z)) : World :=
  foldl (fun w '(who, action, amount) =>
           fst (handleGameAction w who table_id action amount)) w msgs.

(** A three-player table at showdown: seats 0 and 2 hold hands of equal
    value, seat 1 has folded a better one. *)
Definition showdown_players : list Player.t :=
  [ Player.mk 1 0 [Some (mkCard hearts R9); Some (mkCard clubs R9); Some (mkCard spades R4)]
      pair (Some 2904) true false false 20 20 (Some "call"%string);
    Player.mk 2 1 [Some (mkCard hearts RA); Some (mkCard clubs RA); Some (mkCard spades RA)]
      trail (Some 6014) false true false 10 10 (Some "fold"%string);
    Player.mk 3 2 [Some (mkCard diamonds R9); Some (mkCard spades R9); Some (mkCard hearts R4)]
      pair (Some 2904) true false false 20 20 (Some "call"%string) ].

Definition showdown_table : Game.t :=
  Game.mk table_id active 6 10 100 20 50 showdown_players 0 [] None None [].

(** The table after Alice's opening blind: Bob is to act and owes 10. *)
Definition world_after_blind : World :=
  play world_started [(alice, "blind"%string, 0)].

(** The same table with only 5 chips left on Bob's account. *)
Definition world_short : World :=
  set_users (<[bob := User.mk "bob" 5 0 0 0 0 (Some table_id)]> (users world_after_blind))
    world_after_blind.

(** The round of the specification's scenario: Alice bets blind, Bob
    calls, Alice folds. *)
Definition world_settled : World :=
  play world_started
    [(alice, "blind"%string, 0); (bob, "call"%string, 0); (alice, "fold"%string, 0)].

(** Alice has bet blind twice, Bob once; Bob has checked. *)
Definition world_overbet : World :=
  play world_started
    [(alice, "blind"%string, 0); (bob, "blind"%string, 0);
     (alice, "blind"%string, 0); (bob, "check"%string, 0)].

(** The run of Alice's opening blind. *)
Definition blind_run : Run :=
  snd (gameAction alice table_id "blind" 0 (mkRun (games world_started) world_started [])).

(** The player at seat [i] of the stored game and the document of user
    [id], for stores in which they exist. *)
Definition seat_of (w : World) (i : nat) : Player.t :=
  default (Player.fresh 0 0) (Game.players (games w) !! i).

Definition user_of (w : World) (id : UserId) : User.t :=
  default (User.mk "" 0 0 0 0 0 None) (users w !! id).

(** Alice has bet blind and Bob has called. *)
Definition world_called : World :=
  play world_started [(alice, "blind"%string, 0); (bob, "call"%string, 0)].

(** The same round when Alice came to the table with 10 chips: her blind
    bet took them all. *)
Definition world_all_in : World :=
  play (set_users (<[alice := User.mk "alice" 10 0 0 0 0 (Some table_id)]>
                     (users world_started)) world_started)
    [(alice, "blind"%string, 0); (bob, "call"%string, 0)].

(** The table after Alice has left the waiting game. *)
Definition world_left : World := fst (leave world_waiting alice).

(** * Notions used to state the properties *)

(** Every 3-card hand over the deck. *)
Definition allHands : list (list Card) :=
  a ← createDeck; b ← createDeck; c ← createDeck; [[a; b; c]].

(** The least and the greatest value of each category over the hands of
    three different cards. *)
Definition valueBounds (h : HandRank) : Z * Z :=
  match h with
  | high_card => (532, 1541)
  | pair => (2203, 3413)
  | color => (3532, 4541)
  | sequence => (4002, 4012)
  | pure_sequence => (5002, 5012)
  | trail => (6002, 6014)
  end.

(** The value of the hand lies within the bounds of its category. *)
Definition in_bounds (cs : list Card) : bool :=
  match handValueOf cs with
  | Some v =>
      let '(lo, hi) := valueBounds (evaluateHand cs) in (lo <=? v) && (v <=? hi)
  | None => false
  end.

(** The two hands at which the category order and the value order part. *)
Definition color_AKJ : list Card :=
  [mkCard hearts RA; mkCard hearts RK; mkCard hearts RJ].
Definition sequence_234 : list Card :=
  [mkCard hearts R2; mkCard diamonds R3; mkCard clubs R4].

(** One step of the [forEach] of [determineWinner]. *)
Definition better (winner : option Player.t) (player : Player.t) : option Player.t :=
  match winner with
  | Some w =>
      if num_gt (Player.handValue player) (Player.handValue w)
      then Some player else winner
  | None => None
  end.

(** A table with 18 seats taken, more than the schema's [maxPlayers]
    admits. *)
Definition table_18 : Game.t :=
  Game.mk table_id waiting 6 10 100 0 0
    (imap (fun i u => Player.fresh u i) (seq 1 18)) 0 [] None None [].

(** Seat [j] holds a player who has not folded and is still playing. *)
Definition in_hand_at (players : list Player.t) (j : nat) : Prop :=
  exists p, players !! j = Some p /\ Player.inHand p = true.

(** [j] is the first seat after [cur], going round the table, whose
    player is in the hand. *)
Definition next_seat (players : list Player.t) (cur j : nat) : Prop :=
  exists k, (1 <= k <= length players)%nat /\
            j = ((cur + k) mod length players)%nat /\
            in_hand_at players j /\
            forall k', (1 <= k' < k)%nat ->
                       ~ in_hand_at players ((cur + k') mod length players)%nat.

(** [moveToNextPlayer] as a function on the game. *)
Definition advance (g : Game.t) : Game.t :=
  let n := length (Game.players g) in
  if (length (filter (fun p => Player.inHand p = true) (Game.players g)) <=? 1)%nat then g
  else
    match nextActive n (Game.players g) ((Game.currentPlayerIndex g + 1) mod n)%nat with
    | inr nextIndex => Game.set_currentPlayerIndex nextIndex g
    | inl _ => g
    end.

(** Whatever the outcome, the state after [m] is related by [R] to the
    state before it. *)
Definition respects (R : relation Run) {A} (m : M A) : Prop :=
  forall s, R s (snd (m s)).

(** Neither the loaded game nor the stored game changes, and nothing is
    emitted. *)
Definition same_games (s s' : Run) : Prop :=
  game s' = game s /\ games (world s') = games (world s) /\ emitted s' = emitted s.

(** The loaded game does not change, the stored game either does not
    change or becomes the loaded one, and nothing is emitted. *)
Definition saved_or_same (s s' : Run) : Prop :=
  game s' = game s /\
  (games (world s') = games (world s) \/ games (world s') = game s) /\
  emitted s' = emitted s.

(** What [endGame] writes on the loaded game. *)
Definition declare (winner : Player.t) (g : Game.t) : Game.t :=
  Game.set_winningHand (Some (Player.handRank winner))
    (Game.set_winner (Some (Player.user winner)) (Game.set_status completed g)).

(** The sum of [totalBet] over the players. *)
Definition sumTotalBet (players : list Player.t) : Z :=
  foldr Z.add 0 (Player.totalBet <$> players).

(** [pot == sum of player.totalBet]. *)
Definition potInvariant (g : Game.t) : Prop :=
  Game.pot g = sumTotalBet (Game.players g).

(** The conclusion of a handled action that went through. *)
Definition logged_and_advanced (w : World) (userId : UserId) (action : string)
    (s' : Run) : Prop :=
  games (world s') = game s' /\
  Game.status (game s') = Game.status (games w) /\
  (exists e, Game.gameHistory (game s') = Game.gameHistory (games w) ++ [e] /\
             History.action e = action /\ History.player e = userId) /\
  next_seat (Game.players (game s')) (Game.currentPlayerIndex (games w))
    (Game.currentPlayerIndex (game s')).

(** What the leave route writes on the leaver's seat in an active game. *)
Definition foldOut (p : Player.t) : Player.t :=
  Player.set_isPlaying false (Player.set_isFolded true p).

(** The balance of user [id], if the user exists. *)
Definition chipsOf (id : UserId) (w : World) : option Z :=
  User.chips <$> users w !! id.

(** Only user documents change, and no balance does. *)
Definition stats_only (s s' : Run) : Prop :=
  game s' = game s /\ emitted s' = emitted s /\
  games (world s') = games (world s) /\
  transactions (world s') = transactions (world s) /\
  PLATFORM_COMMISSION_RATE (world s') = PLATFORM_COMMISSION_RATE (world s) /\
  forall id, chipsOf id (world s') = chipsOf id (world s).

(** The balance of [id] stays and the ledger only grows. *)
Definition keeps_balance (id : UserId) (s s' : Run) : Prop :=
  chipsOf id (world s') = chipsOf id (world s) /\
  exists more, transactions (world s') = transactions (world s) ++ more.

(** Some rank [v] of the hand is such that the ranks are [v], [v + 1],
    [v + 2] in some order. *)
Definition consecutive (cs : list Card) : Prop :=
  let vs := (getRankValue ∘ rank) <$> cs in
  Exists (fun v => vs ≡ₚ [v; v + 1; v + 2]) vs.

Definition sameRank (cs : list Card) : Prop :=
  Forall (fun c => Forall (fun c' => rank c = rank c') cs) cs.

Definition sameSuit (cs : list Card) : Prop :=
  Forall (fun c => Forall (fun c' => suit c = suit c') cs) cs.

#[global] Instance consecutive_dec (cs : list Card) : Decision (consecutive cs).
Proof. unfold consecutive. apply _. Defined.
#[global] Instance sameRank_dec (cs : list Card) : Decision (sameRank cs).
Proof. unfold sameRank. apply _. Defined.
#[global] Instance sameSuit_dec (cs : list Card) : Decision (sameSuit cs).
Proof. unfold sameSuit. apply _. Defined.

(** The category of three cards by the rules of the game, read off the
    ranks and the suits whatever their order; the ace counts high only. *)
Definition category (cs : list Card) : HandRank :=
  if decide (sameRank cs) then trail
  else if decide (consecutive cs) then
    if decide (sameSuit cs) then pure_sequence else sequence
  else if decide (sameSuit cs) then color
  else if decide (NoDup (rank <$> cs)) then high_card
  else pair.

(** What decides between two hands of the category [h], most significant
    first: the rank of a trail, the lowest rank of a sequence, the rank of
    the pair and then the odd card, and for a color or a high card the
    three ranks from the highest down. The ranks are ordered without
    sorting: the highest, the lowest, and what is left. *)
Definition kickersOf (h : HandRank) (cs : list Card) : list Z :=
  match (getRankValue ∘ rank) <$> cs with
  | [x; y; z] =>
      let hi := Z.max x (Z.max y z) in
      let lo := Z.min x (Z.min y z) in
      let mid := x + y + z - hi - lo in
      match h with
      | trail => [hi]
      | pure_sequence | sequence => [lo]
      | pair => [mid; hi + lo - mid]
      | color | high_card => [hi; mid; lo]
      end
  | _ => []
  end.

Definition kickers (cs : list Card) : list Z := kickersOf (evaluateHand cs) cs.

(** The lexicographic order on kickers of equal length. *)
Fixpoint lex_lt (k k' : list Z) : Prop :=
  match k, k' with
  | x :: r, y :: r' => x < y \/ (x = y /\ lex_lt r r')
  | _, _ => False
  end.

(** The value as a weighted sum of the kickers of the category. *)
Definition weighted (h : HandRank) (k : list Z) : option Z :=
  match h, k with
  | trail, [x] => Some (6000 + x)
  | pure_sequence, [x] => Some (5000 + x)
  | sequence, [x] => Some (4000 + x)
  | color, [x; y; z] => Some (3000 + x * 100 + y * 10 + z)
  | pair, [x; y] => Some (2000 + x * 100 + y)
  | high_card, [x; y; z] => Some (x * 100 + y * 10 + z)
  | _, _ => None
  end.

Definition is_rank (x : Z) : bool := (2 <=? x) && (x <=? 14).

(** The kickers of a hand of three different cards: ranks, strictly
    falling for a color or a high card, two different ones for a pair. *)
Definition well_kicked (h : HandRank) (k : list Z) : bool :=
  match h, k with
  | (trail | pure_sequence | sequence), [x] => is_rank x
  | (color | high_card), [x; y; z] => is_rank x && is_rank z && (z <? y) && (y <? x)
  | pair, [x; y] => is_rank x && is_rank y && negb (x =? y)
  | _, _ => false
  end.

(** The category [evaluateHand] gives is the category of the rules, and
    for three different cards the value [getHandValue] gives at it is the
    weighted sum of its kickers. *)
Definition evaluated_by_the_rules (cs : list Card) : bool :=
  let h := evaluateHand cs in
  let k := kickersOf h cs in
  bool_decide (h = category cs) &&
  implb (bool_decide (NoDup cs))
        (bool_decide (getHandValue cs h = weighted h k) && well_kicked h k).

(** The seats of a table in order: no user sits twice, every player's
    [position] is the index of the seat, and the table is not over its
    [maxPlayers]. *)
Definition seated_well (g : Game.t) : Prop :=
  NoDup (Player.user <$> Game.players g) /\
  (forall i p, Game.players g !! i = Some p -> Player.position p = i) /\
  (length (Game.players g) <= Game.maxPlayers g)%nat.

Definition seated (userId : UserId) (g : Game.t) : Prop :=
  userId ∈ Player.user <$> Game.players g.

(** The status [removePlayer] leaves. *)
Definition status_after_removal (g : Game.t) (left : nat) : Status :=
  if decide ((left < 2)%nat /\ Game.status g = active) then cancelled else Game.status g.

(** [p'] is [p] with other cards, hand rank and hand value at most. *)
Definition same_seat (p p' : Player.t) : Prop :=
  Player.set_hand (Player.cards p) (Player.handRank p) (Player.handValue p) p' = p.

(** A sequence of [game_action] messages from any sockets, each handled
    to its end before the next. *)
Definition handleAll (w : World) (msgs : list (UserId * nat * string * Z)) : World :=
  foldl (fun w '(who, gameId, action, amount) =>
           fst (handleGameAction w who gameId action amount)) w msgs.

(** The chips of [id] together with the pot of the stored game. *)
Definition chipsAndPot (id : UserId) (w : World) : option Z :=
  (fun c => c + Game.pot (games w)) <$> chipsOf id w.

Definition actions : list string := ["fold"; "call"; "raise"; "check"; "show"; "blind"]%string.

(** Who sits where and with which cards. *)
Definition seatCards (p : Player.t)
    : UserId * nat * list (option Card) * HandRank * option Z :=
  (Player.user p, Player.position p, Player.cards p, Player.handRank p, Player.handValue p).

(** [g'] is the table [g] later in the round: the same game with the same
    limits and deck, the same players on the same seats with the same
    cards, a history that has only grown, and, the minimum bet not being
    negative, a table bet that has not fallen. *)
Definition same_table (g g' : Game.t) : Prop :=
  Game._id g' = Game._id g /\
  Game.maxPlayers g' = Game.maxPlayers g /\
  Game.minBet g' = Game.minBet g /\
  Game.maxBet g' = Game.maxBet g /\
  Game.deck g' = Game.deck g /\
  seatCards <$> Game.players g' = seatCards <$> Game.players g /\
  (exists more, Game.gameHistory g' = Game.gameHistory g ++ more) /\
  (0 <= Game.minBet g -> Game.currentBet g <= Game.currentBet g').

(** Between two stores only the account of [id] and the pot differ in
    chips, and what left the one went to the other. *)
Definition chips_moved_to_pot (id : UserId) (w w' : World) : Prop :=
  chipsAndPot id w' = chipsAndPot id w /\
  (forall other, other <> id -> users w' !! other = users w !! other) /\
  transactions w' = transactions w.

(** What a player pays to call: the table bet less the player's own. *)
Definition toCall (g : Game.t) (p : Player.t) : Z :=
  Game.currentBet g - Player.currentBet p.

(** The balance [createTransaction] computes from the balance before. *)
Definition booked (type : string) (before amount : Z) : Z :=
  if decide (type ∈ credit_types) then before + amount
  else if decide (type ∈ debit_types) then before - amount
  else before.

(** What a transaction that went through leaves behind. *)
Definition booked_run (type : string) (to : UserId) (amount : Z) (gameId : option nat)
    (recipient : User.t) (s : Run) : Run :=
  let after := booked type (User.chips recipient) amount in
  mkRun (game s)
    (set_transactions
       (transactions (world s)
        ++ [Transaction.mk type (Some to) amount (User.chips recipient) after gameId])
       (set_users (<[to := User.set_chips after recipient]> (users (world s))) (world s)))
    (emitted s).

(** The callbacks of the two [Promise.all] of [endGame]. *)
Definition statsBody (winner player : Player.t) : M unit :=
  user ← User_findById (Player.user player);
  User_save (Player.user player)
    (User.mk (User.username user) (User.chips user)
       (User.gamesWon user) (User.gamesPlayed user + 1)
       (User.totalChipsWon user)
       (if bool_decide (Player.user player ≠ Player.user winner)
        then User.totalChipsLost user + Player.totalBet player
        else User.totalChipsLost user)
       None).

Definition lossBody (winner : Player.t) (gameId : nat) (player : Player.t) : M unit :=
  if bool_decide (Player.user player ≠ Player.user winner) && (0 <? Player.totalBet player)
  then createGameLossTransaction (Player.user player) (Player.totalBet player) gameId
  else mret tt.

(** User [id] exists and is in no game. *)
Definition released (id : UserId) (w : World) : Prop :=
  User.currentGameId <$> users w !! id = Some None.

Definition stays_released (id : UserId) (s s' : Run) : Prop :=
  released id (world s) -> released id (world s').

(** The document of user [id] stays, if there is one. *)
Definition still_there (id : UserId) (s s' : Run) : Prop :=
  is_Some (users (world s) !! id) -> is_Some (users (world s') !! id).

(** What [handleFold] writes on the seat and on the game before it looks
    for the last player. *)
Definition folded (p : Player.t) : Player.t :=
  Player.set_lastAction "fold" (Player.set_isPlaying false (Player.set_isFolded true p)).

Definition afterFold (g : Game.t) (i : nat) (userId : UserId) (username : string) : Game.t :=
  Game.set_gameHistory
    (Game.gameHistory g ++ [History.mk "fold" userId 0 (username +:+ " folded")])
    (Game.update_player i folded g).

(** * Properties *)

(** ** Hand values and categories *)

(** Settle a decidable closed proposition by evaluating its decision. *)
Ltac by_evaluation := apply (bool_decide_unpack _); vm_compute; exact I.

Example createDeck_52 : length createDeck = 52%nat.
Proof. reflexivity. Qed.

Example createDeck_NoDup : NoDup createDeck.
Proof. by_evaluation. Qed.

Lemma card_in_createDeck (c : Card) : c ∈ createDeck.
Proof.
  destruct c as [[] []]; by_evaluation.
Qed.

Lemma hand_in_allHands (a b c : Card) : [a; b; c] ∈ allHands.
Proof.
  unfold allHands.
  apply list_elem_of_bind. exists a. split; [|apply card_in_createDeck].
  apply list_elem_of_bind. exists b. split; [|apply card_in_createDeck].
  apply list_elem_of_bind. exists c. split; [|apply card_in_createDeck].
  apply list_elem_of_singleton. reflexivity.
Qed.

Lemma allHands_in_bounds :
  forallb (fun cs => implb (bool_decide (NoDup cs)) (in_bounds cs)) allHands = true.
Proof. vm_compute. reflexivity. Qed.

(** The value of a hand of three different cards lies within the bounds
    of its category. *)
Lemma hand_value_in_bounds (a b c : Card) :
  NoDup [a; b; c] ->
  exists v, handValueOf [a; b; c] = Some v /\
            (valueBounds (evaluateHand [a; b; c])).1 <= v
            <= (valueBounds (evaluateHand [a; b; c])).2.
Proof.
  intros Hnd.
  pose proof (proj1 (forallb_forall _ _) allHands_in_bounds [a; b; c]) as H.
  specialize (H (proj1 (list_elem_of_In _ _) (hand_in_allHands a b c))).
  cbv beta in H. rewrite (bool_decide_eq_true_2 _ Hnd) in H. simpl implb in H.
  unfold in_bounds in H.
  destruct (handValueOf [a; b; c]) as [v|]; [|discriminate].
  exists v. split; [reflexivity|].
  destruct (valueBounds _) as [lo hi]. simpl.
  apply andb_true_iff in H as [H1 H2]. lia.
Qed.

(** Away from the pair color/sequence the category decides: of two hands
    of three different cards in different categories, the one in the
    higher category has the greater value. *)
Lemma category_order_elsewhere (a b c a' b' c' : Card) :
  NoDup [a; b; c] -> NoDup [a'; b'; c'] ->
  categoryIndex (evaluateHand [a; b; c]) < categoryIndex (evaluateHand [a'; b'; c']) ->
  ~ (evaluateHand [a; b; c] = color /\ evaluateHand [a'; b'; c'] = sequence) ->
  exists v v', handValueOf [a; b; c] = Some v /\ handValueOf [a'; b'; c'] = Some v' /\
               v < v'.
Proof.
  intros Hnd Hnd' Hlt Hne.
  destruct (hand_value_in_bounds a b c Hnd) as (v & Hv & Hb).
  destruct (hand_value_in_bounds a' b' c' Hnd') as (v' & Hv' & Hb').
  exists v, v'. split; [assumption|]. split; [assumption|].
  destruct (evaluateHand [a; b; c]), (evaluateHand [a'; b'; c']);
    simpl in *; try lia.
  exfalso. apply Hne. split; reflexivity.
Qed.

(** C1 (the code departs from the claim): the color hand A-K-J of hearts
    is in a lower category than the sequence 2-3-4, and its handValue,
    3000 + 1400 + 130 + 11 = 4541, is greater than the sequence's
    4000 + 2 = 4002. *)
Theorem C1_color_value_exceeds_sequence :
  evaluateHand color_AKJ = color /\
  evaluateHand sequence_234 = sequence /\
  categoryIndex (evaluateHand color_AKJ) < categoryIndex (evaluateHand sequence_234) /\
  handValueOf color_AKJ = Some 4541 /\
  handValueOf sequence_234 = Some 4002 /\
  ~ (exists v v', handValueOf color_AKJ = Some v /\
                  handValueOf sequence_234 = Some v' /\ v < v').
Proof.
  repeat split; try reflexivity.
  intros (v & v' & Hv & Hv' & Hlt).
  vm_compute in Hv, Hv'. injection Hv as <-. injection Hv' as <-. lia.
Qed.

(** ** Winner determination *)

(** The loop keeps the first player of greatest value: everything before
    the kept player is strictly below it, everything after is not above. *)
Lemma foldl_better_first_max (rest pre mid : list Player.t) (w0 : Player.t) (v0 : Z) :
  Player.handValue w0 = Some v0 ->
  (forall p, p ∈ pre ++ mid ++ rest -> is_Some (Player.handValue p)) ->
  (forall p u, p ∈ pre -> Player.handValue p = Some u -> u < v0) ->
  (forall p u, p ∈ mid -> Player.handValue p = Some u -> u <= v0) ->
  exists w v l1 l2,
    foldl better (Some w0) rest = Some w /\
    Player.handValue w = Some v /\
    pre ++ w0 :: mid ++ rest = l1 ++ w :: l2 /\
    (forall p u, p ∈ l1 -> Player.handValue p = Some u -> u < v) /\
    (forall p u, p ∈ l2 -> Player.handValue p = Some u -> u <= v).
Proof.
  revert pre mid w0 v0.
  induction rest as [|x rest IH]; intros pre mid w0 v0 Hv0 Hsome Hpre Hmid.
  - exists w0, v0, pre, mid. rewrite app_nil_r. simpl. auto.
  - simpl. rewrite Hv0.
    destruct (Hsome x) as [vx Hvx].
    { apply elem_of_app; right. apply elem_of_app; right. left. }
    rewrite Hvx. simpl.
    destruct (v0 <? vx) eqn:Hcmp.
    + apply Z.ltb_lt in Hcmp.
      destruct (IH (pre ++ w0 :: mid) [] x vx Hvx) as (w & v & l1 & l2 & H1 & H2 & H3 & H4 & H5).
      * intros p Hp. simpl in Hp.
        apply elem_of_app in Hp as [Hp|Hp].
        -- apply elem_of_app in Hp as [Hp|Hp]; [apply Hsome; set_solver|].
           apply elem_of_cons in Hp as [->|Hp]; [eauto|apply Hsome; set_solver].
        -- apply Hsome; set_solver.
      * intros p u Hp Hu.
        apply elem_of_app in Hp as [Hp|Hp]; [specialize (Hpre p u Hp Hu); lia|].
        apply elem_of_cons in Hp as [->|Hp].
        -- rewrite Hv0 in Hu. injection Hu as <-. lia.
        -- specialize (Hmid p u Hp Hu). lia.
      * intros p u Hp. exfalso. exact (not_elem_of_nil _ Hp).
      * exists w, v, l1, l2. repeat split; try assumption.
        rewrite <- H3. simpl. rewrite <- !app_assoc. reflexivity.
    + apply Z.ltb_ge in Hcmp.
      destruct (IH pre (mid ++ [x]) w0 v0 Hv0) as (w & v & l1 & l2 & H1 & H2 & H3 & H4 & H5).
      * intros p Hp. apply Hsome.
        rewrite <- (app_assoc mid [x] rest) in Hp. exact Hp.
      * assumption.
      * intros p u Hp Hu.
        apply elem_of_app in Hp as [Hp|Hp]; [eauto|].
        apply list_elem_of_singleton in Hp as ->.
        rewrite Hvx in Hu. injection Hu as <-. lia.
      * exists w, v, l1, l2. repeat split; try assumption.
        rewrite <- H3. rewrite <- !app_assoc. reflexivity.
Qed.

(** A split of a filtered list comes from a split of the list. *)
Lemma filter_split {A} (P : A -> Prop) `{!forall x, Decision (P x)}
    (l : list A) (l1 l2 : list A) (w : A) :
  filter P l = l1 ++ w :: l2 ->
  exists k1 k2, l = k1 ++ w :: k2 /\ filter P k1 = l1 /\ filter P k2 = l2 /\ P w.
Proof.
  revert l1. induction l as [|x l IH]; intros l1 Hf.
  - destruct l1; discriminate.
  - rewrite filter_cons in Hf. destruct (decide (P x)) as [Hx|Hx].
    + destruct l1 as [|y l1]; simpl in Hf.
      * injection Hf as -> Hf. exists [], l. rewrite filter_nil. auto.
      * injection Hf as -> Hf. destruct (IH _ Hf) as (k1 & k2 & -> & <- & <- & Hw).
        exists (y :: k1), k2. rewrite filter_cons_True by assumption. auto.
    + destruct (IH _ Hf) as (k1 & k2 & -> & <- & <- & Hw).
      exists (x :: k1), k2. rewrite filter_cons_False by assumption. auto.
Qed.

(** C10: when every player still in the hand has a numeric handValue and
    there is such a player, determineWinner returns one player [w] still
    in the hand; the players list splits as [before ++ w :: after] with
    every in-hand player of [before] strictly below [w]'s value and every
    in-hand player of [after] at most at it. So [w] has the maximal value
    and, on a tie, is the earliest seat; a single player is returned. *)
Theorem C10_determineWinner_first_maximum (g : Game.t) :
  (forall p, p ∈ Game.players g -> Player.inHand p = true ->
             is_Some (Player.handValue p)) ->
  (exists p, p ∈ Game.players g /\ Player.inHand p = true) ->
  exists w v before after,
    determineWinner g = Some w /\
    Player.inHand w = true /\
    Player.handValue w = Some v /\
    Game.players g = before ++ w :: after /\
    (forall p u, p ∈ before -> Player.inHand p = true ->
                 Player.handValue p = Some u -> u < v) /\
    (forall p u, p ∈ after -> Player.inHand p = true ->
                 Player.handValue p = Some u -> u <= v).
Proof.
  intros Hsome [p0 [Hp0 Hin0]].
  unfold determineWinner.
  set (act := filter (fun p => Player.inHand p = true) (Game.players g)).
  assert (Hact : forall p, p ∈ act -> is_Some (Player.handValue p)).
  { intros p Hp. apply list_elem_of_filter in Hp as [Hp1 Hp2]. auto. }
  assert (Hne : p0 ∈ act) by (apply list_elem_of_filter; auto).
  destruct act as [|a rest] eqn:Hact_eq; [inversion Hne|].
  destruct (Hact a) as [va Hva]; [left|].
  assert (Hfold : (if (length (a :: rest) =? 1)%nat then (a :: rest) !! 0%nat
                   else foldl better ((a :: rest) !! 0%nat) (a :: rest))
                  = foldl better (Some a) rest).
  { assert (Hself : better (Some a) a = Some a).
    { unfold better, num_gt. rewrite Hva, Z.ltb_irrefl. reflexivity. }
    change ((a :: rest) !! 0%nat) with (Some a).
    destruct rest as [|b rest']; [reflexivity|].
    change (foldl better (Some a) (a :: b :: rest'))
      with (foldl better (better (Some a) a) (b :: rest')).
    rewrite Hself. reflexivity. }
  change (foldl _ ((a :: rest) !! 0%nat) (a :: rest))
    with (foldl better ((a :: rest) !! 0%nat) (a :: rest)).
  rewrite Hfold.
  destruct (foldl_better_first_max rest [] [] a va Hva)
    as (w & v & l1 & l2 & H1 & H2 & H3 & H4 & H5).
  - intros p Hp. simpl in Hp. apply Hact. right. assumption.
  - intros p u Hp. exfalso. exact (not_elem_of_nil _ Hp).
  - intros p u Hp. exfalso. exact (not_elem_of_nil _ Hp).
  - simpl in H3. rewrite <- Hact_eq in H3. unfold act in H3.
    destruct (filter_split _ _ _ _ _ H3) as (k1 & k2 & Hk & Hk1 & Hk2 & Hw).
    exists w, v, k1, k2. repeat split; try assumption.
    + intros p u Hp Hin Hu. apply (H4 p u); [|assumption].
      rewrite <- Hk1. apply list_elem_of_filter. auto.
    + intros p u Hp Hin Hu. apply (H5 p u); [|assumption].
      rewrite <- Hk2. apply list_elem_of_filter. auto.
Qed.

Lemma C10_determineWinner_first_maximum_witness :
  exists w v before after,
    determineWinner showdown_table = Some w /\
    Player.inHand w = true /\
    Player.handValue w = Some v /\
    Game.players showdown_table = before ++ w :: after /\
    (forall p u, p ∈ before -> Player.inHand p = true ->
                 Player.handValue p = Some u -> u < v) /\
    (forall p u, p ∈ after -> Player.inHand p = true ->
                 Player.handValue p = Some u -> u <= v).
Proof.
  apply (C10_determineWinner_first_maximum showdown_table).
  - intros p Hp _. simpl in Hp.
    repeat (apply elem_of_cons in Hp as [->|Hp]; [eexists; reflexivity|]).
    exfalso. exact (not_elem_of_nil _ Hp).
  - eexists. split; [left|reflexivity].
Defined.

(** On the tie of seats 0 and 2 the earlier seat is the one returned. *)
Example determineWinner_tie :
  Player.user <$> determineWinner showdown_table = Some 1%nat.
Proof. reflexivity. Qed.

(** ** The view sent to a client *)




(** ** Dealing *)

Lemma swap_Permutation {A} (i j : nat) (a : list A) : swap i j a ≡ₚ a.
Proof.
  unfold swap.
  destruct (a !! i) as [x|] eqn:Hi; [|reflexivity].
  destruct (a !! j) as [y|] eqn:Hj; [|reflexivity].
  apply Permutation_insert_swap; assumption.
Qed.

Lemma shuffle_from_Permutation {A} (rnd : nat -> nat) (i : nat) (a : list A) :
  shuffle_from rnd i a ≡ₚ a.
Proof.
  revert a. induction i as [|i IH]; intros a; simpl; [reflexivity|].
  rewrite IH. apply swap_Permutation.
Qed.

(** The shuffle returns a permutation of the deck it was given. *)
Lemma shuffleDeck_Permutation {A} (rnd : nat -> nat) (deck : list A) :
  shuffleDeck rnd deck ≡ₚ deck.
Proof. apply shuffle_from_Permutation. Qed.

Lemma pop_snoc {A} (l : list A) (x : A) : JS.pop (l ++ [x]) = (Some x, l).
Proof.
  unfold JS.pop. rewrite rev_app_distr. simpl. rewrite rev_involutive. reflexivity.
Qed.

(** Three pops take the last three cards, the last one first. *)
Lemma dealHand_top (deck : list Card) (a b c : Card) :
  dealHand (deck ++ [c; b; a]) = ([Some a; Some b; Some c], deck).
Proof.
  unfold dealHand.
  change (deck ++ [c; b; a]) with (deck ++ [c; b] ++ [a]).
  rewrite app_assoc, pop_snoc.
  change (deck ++ [c; b]) with (deck ++ [c] ++ [b]).
  rewrite app_assoc, pop_snoc, pop_snoc. reflexivity.
Qed.

Lemma last_three {A} (l : list A) :
  (3 <= length l)%nat -> exists l0 a b c, l = l0 ++ [c; b; a].
Proof.
  intros Hlen. rewrite <- (rev_involutive l) in *. rewrite length_rev in Hlen.
  destruct (rev l) as [|a [|b [|c r]]]; simpl in Hlen; try lia.
  exists (rev r), a, b, c. simpl. rewrite <- !app_assoc. reflexivity.
Qed.

(** With cards enough for everybody the loop ends without an exception;
    the hands, read seat by seat, are the cards cut from the end of the
    deck in the order of popping, every hand has three cards, and its
    rank and value are those of [evaluateHand] and [getHandValue]. *)
Lemma dealPlayers_enough (players : list Player.t) (deck : list Card) :
  (3 * length players <= length deck)%nat ->
  exists players' dealt,
    dealPlayers players deck
      = (None, (players', take (length deck - 3 * length players) deck)) /\
    take (length deck - 3 * length players) deck ++ rev dealt = deck /\
    concat (Player.cards <$> players') = Some <$> dealt /\
    length players' = length players /\
    Player.user <$> players' = Player.user <$> players /\
    Forall (fun p => exists a b c,
              Player.cards p = [Some a; Some b; Some c] /\
              Player.handRank p = evaluateHand [a; b; c] /\
              Player.handValue p = handValueOf [a; b; c]) players'.
Proof.
  revert deck. induction players as [|p ps IH]; intros deck Hlen.
  - exists [], []. simpl. rewrite Nat.sub_0_r, firstn_all, app_nil_r.
    repeat split; constructor.
  - simpl length in *.
    destruct (last_three deck) as (d0 & a & b & c & ->); [lia|].
    rewrite length_app in *. simpl length in *.
    destruct (IH d0) as (ps' & dealt & Hdeal & Htop & Hcards & Hl & Hu & Hall); [lia|].
    simpl dealPlayers. rewrite dealHand_top.
    change (evaluateHand_js [Some a; Some b; Some c]) with (@inr Exn _ (evaluateHand [a; b; c])).
    change (getHandValue_js [Some a; Some b; Some c] (evaluateHand [a; b; c]))
      with (@inr Exn _ (handValueOf [a; b; c])).
    cbv iota beta. rewrite Hdeal.
    replace (length d0 + 3 - 3 * S (length ps))%nat
      with (length d0 - 3 * length ps)%nat by lia.
    rewrite take_app_le by lia.
    exists (Player.set_hand [Some a; Some b; Some c] (evaluateHand [a; b; c])
              (handValueOf [a; b; c]) p :: ps'), (a :: b :: c :: dealt).
    repeat split.
    + change (rev (a :: b :: c :: dealt)) with (((rev dealt ++ [c]) ++ [b]) ++ [a]).
      rewrite <- !(app_assoc (rev dealt)).
      rewrite (app_assoc _ (rev dealt)), Htop. reflexivity.
    + rewrite fmap_cons. cbn [concat Player.set_hand Player.cards].
      rewrite Hcards. reflexivity.
    + cbn [length]. rewrite Hl. reflexivity.
    + rewrite !fmap_cons, Hu. reflexivity.
    + constructor; [|assumption]. exists a, b, c. auto.
Qed.

(** C7 (as the code has it): for every outcome of the random draws and
    up to 17 players, dealCards ends without an exception; the deck it
    dealt from is a permutation of the fresh 52-card deck; every player
    holds exactly three cards, which seat by seat are the cards removed
    from the end of that deck in popping order; what is left in the game's
    deck is the rest, so no dealt card is dealt twice or stays in the
    deck; and the stores are not touched. Nothing checks for an exhausted
    deck. *)
Theorem C7_dealCards_three_per_player (rnd : nat -> nat) (s : Run) :
  (forall i, rnd i <= i)%nat ->
  (3 * length (Game.players (game s)) <= 52)%nat ->
  exists s' dealt,
    dealCards rnd s = (inr tt, s') /\
    shuffleDeck rnd createDeck ≡ₚ createDeck /\
    Game.deck (game s') ++ rev dealt = shuffleDeck rnd createDeck /\
    concat (Player.cards <$> Game.players (game s')) = Some <$> dealt /\
    length dealt = (3 * length (Game.players (game s)))%nat /\
    NoDup (Game.deck (game s') ++ dealt) /\
    Player.user <$> Game.players (game s') = Player.user <$> Game.players (game s) /\
    Forall (fun p => exists a b c,
              Player.cards p = [Some a; Some b; Some c] /\
              Player.handRank p = evaluateHand [a; b; c] /\
              Player.handValue p = handValueOf [a; b; c]) (Game.players (game s')) /\
    world s' = world s.
Proof.
  intros _ Hn.
  pose proof (shuffleDeck_Permutation rnd createDeck) as Hperm.
  assert (Hlen : length (shuffleDeck rnd createDeck) = 52%nat).
  { rewrite Hperm. reflexivity. }
  destruct (dealPlayers_enough (Game.players (game s)) (shuffleDeck rnd createDeck))
    as (ps' & dealt & Hdeal & Htop & Hcards & Hl & Hu & Hall); [lia|].
  unfold dealCards, mbind, M_bind, modifyGame, getGame, mret, M_ret.
  cbn [game world emitted Game.players Game.deck Game.set_deck Game.set_players].
  rewrite Hdeal.
  cbn [game world emitted Game.players Game.deck Game.set_deck Game.set_players].
  eexists. exists dealt. split; [reflexivity|].
  cbn [game world emitted Game.players Game.deck Game.set_deck Game.set_players].
  repeat split; try assumption.
  - apply (f_equal length) in Hcards.
    rewrite length_fmap in Hcards. rewrite <- Hcards, <- Hl.
    clear -Hall. induction Hall as [|p l (a & b & c & Hc & _) _ IH]; [reflexivity|].
    rewrite fmap_cons. cbn [concat]. rewrite length_app, IH, Hc. simpl. lia.
  - assert (Hnd : NoDup (take (length (shuffleDeck rnd createDeck)
                                 - 3 * length (Game.players (game s)))
                              (shuffleDeck rnd createDeck) ++ rev dealt)).
    { rewrite Htop, Hperm. apply createDeck_NoDup. }
    rewrite <- (Permutation_rev dealt) in Hnd. exact Hnd.
Qed.

Lemma C7_dealCards_three_per_player_witness :
  exists s' dealt,
    dealCards (fun i => i) (mkRun table_waiting world_waiting []) = (inr tt, s') /\
    shuffleDeck (fun i => i) createDeck ≡ₚ createDeck /\
    Game.deck (game s') ++ rev dealt = shuffleDeck (fun i => i) createDeck /\
    concat (Player.cards <$> Game.players (game s')) = Some <$> dealt /\
    length dealt = (3 * 2)%nat /\
    NoDup (Game.deck (game s') ++ dealt) /\
    Player.user <$> Game.players (game s') = [alice; bob] /\
    Forall (fun p => exists a b c,
              Player.cards p = [Some a; Some b; Some c] /\
              Player.handRank p = evaluateHand [a; b; c] /\
              Player.handValue p = handValueOf [a; b; c]) (Game.players (game s')) /\
    world s' = world_waiting.
Proof.
  apply (C7_dealCards_three_per_player (fun i => i) (mkRun table_waiting world_waiting [])).
  - intros i. lia.
  - simpl. lia.
Defined.

(** C7 (the claim as stated fails): with 18 players, 54 cards would be
    needed. No deck-exhaustion error is raised: the last player is dealt
    one card and two [undefined], the deck is empty, and what ends the
    loop is the [TypeError] of reading [rank] of [undefined] in
    [evaluateHand]. *)
Lemma C7_undefined_cards_dealt :
  (fun r => (fst r,
             Player.cards <$> Game.players (game (snd r)) !! 17%nat,
             Game.deck (game (snd r))))
    (dealCards (fun i => i) (mkRun table_18 world_waiting []))
  = (inl (TypeError "Cannot read properties of undefined (reading 'rank')"),
     Some [Some (mkCard hearts R2); None; None],
     []).
Proof. vm_compute. reflexivity. Qed.

(** ** Turn advancement *)

Lemma loop_test_inHand (p : Player.t) :
  Player.isFolded p || negb (Player.isPlaying p) = negb (Player.inHand p).
Proof. unfold Player.inHand. destruct (Player.isFolded p), (Player.isPlaying p); reflexivity. Qed.

(** The loop stops at the first seat in the hand, provided there is one
    within [fuel] steps. *)
Lemma nextActive_first (players : list Player.t) (fuel : nat) :
  forall idx d,
    (idx < length players)%nat -> (d <= fuel)%nat ->
    in_hand_at players ((idx + d) mod length players)%nat ->
    exists k, (k <= d)%nat /\
      nextActive fuel players idx = inr ((idx + k) mod length players)%nat /\
      in_hand_at players ((idx + k) mod length players)%nat /\
      forall k', (k' < k)%nat -> ~ in_hand_at players ((idx + k') mod length players)%nat.
Proof.
  induction fuel as [|fuel IH]; intros idx d Hidx Hd Hin.
  - assert (d = 0)%nat as -> by lia.
    rewrite Nat.add_0_r, Nat.mod_small in Hin by assumption.
    exists 0%nat. rewrite Nat.add_0_r, Nat.mod_small by assumption.
    destruct Hin as (p & Hp & Hh).
    simpl. rewrite Hp, loop_test_inHand, Hh. simpl.
    repeat split; [lia| |intros; lia]. exists p. auto.
  - destruct (lookup_lt_is_Some_2 players idx Hidx) as [p Hp].
    destruct (Player.inHand p) eqn:Hh.
    + exists 0%nat. rewrite Nat.add_0_r, Nat.mod_small by assumption.
      simpl. rewrite Hp, loop_test_inHand, Hh. simpl.
      repeat split; [lia| |intros; lia]. exists p. auto.
    + destruct d as [|d].
      { rewrite Nat.add_0_r, Nat.mod_small in Hin by assumption.
        destruct Hin as (p' & Hp' & Hh'). congruence. }
      assert (Hn : (length players <> 0)%nat) by lia.
      destruct (IH ((idx + 1) mod length players)%nat d) as (k & Hk & Hrun & Hat & Hskip).
      * apply Nat.mod_upper_bound; assumption.
      * lia.
      * rewrite Nat.Div0.add_mod_idemp_l.
        replace (idx + 1 + d)%nat with (idx + S d)%nat by lia. assumption.
      * rewrite Nat.Div0.add_mod_idemp_l in Hrun, Hat.
        replace (idx + 1 + k)%nat with (idx + S k)%nat in Hrun, Hat by lia.
        exists (S k). simpl. rewrite Hp, loop_test_inHand, Hh. simpl.
        repeat split; [lia|assumption|assumption|].
        intros [|k'] Hk'.
        -- rewrite Nat.add_0_r, Nat.mod_small by assumption.
           intros (p' & Hp' & Hh'). congruence.
        -- specialize (Hskip k'). rewrite Nat.Div0.add_mod_idemp_l in Hskip.
           replace (idx + 1 + k')%nat with (idx + S k')%nat in Hskip by lia.
           apply Hskip. lia.
Qed.

Lemma filter_inHand_at (players : list Player.t) :
  (1 <= length (filter (fun p => Player.inHand p = true) players))%nat ->
  exists j, (j < length players)%nat /\ in_hand_at players j.
Proof.
  intros Hlen.
  destruct (filter _ players) as [|p r] eqn:Hf; [simpl in Hlen; lia|].
  assert (Hp : p ∈ filter (fun p => Player.inHand p = true) players) by (rewrite Hf; left).
  apply list_elem_of_filter in Hp as [Hh Hp].
  apply list_elem_of_lookup in Hp as [j Hj].
  exists j. split; [eapply lookup_lt_Some; eassumption|]. exists p. auto.
Qed.

(** With two or more players in the hand the loop of [moveToNextPlayer]
    terminates, and the seat it stops at is the next seat in the hand. *)
Lemma advance_next_seat (g : Game.t) :
  (2 <= length (filter (fun p => Player.inHand p = true) (Game.players g)))%nat ->
  exists j,
    nextActive (length (Game.players g)) (Game.players g)
      ((Game.currentPlayerIndex g + 1) mod length (Game.players g))%nat = inr j /\
    advance g = Game.set_currentPlayerIndex j g /\
    next_seat (Game.players g) (Game.currentPlayerIndex g) j.
Proof.
  intros Hact.
  destruct (filter_inHand_at (Game.players g)) as (j0 & Hj0 & Hin0); [lia|].
  set (n := length (Game.players g)) in *.
  set (cur := Game.currentPlayerIndex g).
  assert (Hn : (n <> 0)%nat) by lia.
  set (idx := ((cur + 1) mod n)%nat).
  assert (Hidx : (idx < n)%nat) by (apply Nat.mod_upper_bound; assumption).
  set (d := ((j0 + n - idx) mod n)%nat).
  assert (Hd : (d < n)%nat) by (apply Nat.mod_upper_bound; assumption).
  assert (Hreach : ((idx + d) mod n = j0)%nat).
  { unfold d. rewrite Nat.Div0.add_mod_idemp_r.
    replace (idx + (j0 + n - idx))%nat with (j0 + 1 * n)%nat by lia.
    rewrite Nat.Div0.mod_add. apply Nat.mod_small. assumption. }
  destruct (nextActive_first (Game.players g) n idx d) as (k & Hk & Hrun & Hat & Hskip).
  - assumption.
  - lia.
  - fold n. rewrite Hreach. assumption.
  - fold n in Hrun, Hat, Hskip.
    assert (Hidxk : forall m, ((idx + m) mod n = (cur + S m) mod n)%nat).
    { intros m. unfold idx. rewrite Nat.Div0.add_mod_idemp_l. f_equal. lia. }
    exists ((idx + k) mod n)%nat. split; [exact Hrun|]. split.
    + unfold advance. fold n. fold cur. fold idx.
      destruct (_ <=? 1)%nat eqn:Hle; [apply Nat.leb_le in Hle; lia|].
      rewrite Hrun. reflexivity.
    + exists (S k). fold n. fold cur. rewrite <- Hidxk.
      repeat split; [lia|lia|assumption|].
      intros [|k'] Hk'; [lia|]. rewrite <- Hidxk. apply Hskip. lia.
Qed.

(** [moveToNextPlayer] never throws and only moves [currentPlayerIndex]. *)
Lemma moveToNextPlayer_run (s : Run) :
  moveToNextPlayer s = (inr tt, mkRun (advance (game s)) (world s) (emitted s)).
Proof.
  unfold moveToNextPlayer, advance, mbind, M_bind, getGame, mret, M_ret.
  destruct (_ <=? 1)%nat eqn:Hle.
  - destruct s; reflexivity.
  - apply Nat.leb_gt in Hle.
    destruct (advance_next_seat (game s)) as (j & Hrun & _ & _); [lia|].
    rewrite Hrun. reflexivity.
Qed.

(** ** Running the handlers *)

(** Unfold the plumbing of a handler run. *)
Ltac run :=
  cbv [mbind M_bind mret M_ret getGame getWorld modifyGame modifyWorld emit throw
       getPlayer modifyPlayer User_findById User_save addToHistory save broadcast
       game world emitted].

Lemma updateChips_subtract_run (s : Run) (id : UserId) (u : User.t) (amount : Z) :
  users (world s) !! id = Some u ->
  (User.chips u <? amount) = false ->
  updateChips id amount "subtract" s
  = (inr tt, mkRun (game s)
               (set_users (<[id := User.set_chips (User.chips u - amount) u]> (users (world s)))
                  (world s))
               (emitted s)).
Proof.
  intros Hu Hc. unfold updateChips.
  rewrite bool_decide_eq_false_2 by discriminate.
  rewrite bool_decide_eq_true_2 by reflexivity.
  destruct s as [g w evs]. run. simpl in Hu. rewrite Hu, Hc. reflexivity.
Qed.

Lemma findIndex_Some (userId : UserId) (players : list Player.t) (i : nat) :
  findIndex userId players = Some i ->
  exists p, players !! i = Some p /\ Player.user p = userId.
Proof.
  unfold findIndex. intros H.
  destruct (list_find _ players) as [[j p]|] eqn:Hf; [|discriminate].
  simpl in H. injection H as ->.
  apply list_find_Some in Hf as (Hp & Hu & _). eauto.
Qed.

(** Decide the [switch] of [gameAction] for a literal action. *)
Ltac pick_action :=
  repeat first
    [ rewrite bool_decide_eq_true_2 by reflexivity
    | rewrite bool_decide_eq_false_2 by discriminate ];
  cbn [negb].

Ltac enter_handler Hid Hidx Hturn :=
  unfold handleGameAction, gameAction; run;
  rewrite (bool_decide_eq_true_2 _ Hid); cbn [negb];
  rewrite Hidx;
  rewrite (bool_decide_eq_true_2 _ Hturn); cbn [negb];
  pick_action.


(** ** Relations every step of a run respects *)

Section Respects.

Variable R : relation Run.
Context `{!PreOrder R}.

Lemma respects_ret {A} (a : A) : respects R (mret a).
Proof. intros s. reflexivity. Qed.

Lemma respects_throw {A} (e : Exn) : respects R (@throw A e).
Proof. intros s. reflexivity. Qed.

Lemma respects_getGame : respects R getGame.
Proof. intros s. reflexivity. Qed.

Lemma respects_getWorld : respects R getWorld.
Proof. intros s. reflexivity. Qed.

Lemma respects_bind {A B} (m : M A) (f : A -> M B) :
  respects R m -> (forall a, respects R (f a)) -> respects R (m ≫= f).
Proof.
  intros Hm Hf s. unfold mbind, M_bind.
  specialize (Hm s). destruct (m s) as [[e|a] s1]; simpl in *; [assumption|].
  etransitivity; [exact Hm|apply Hf].
Qed.

Lemma respects_Promise_all {A} (body : A -> M unit) (items : list A) :
  (forall x, respects R (body x)) -> respects R (Promise_all body items).
Proof.
  intros Hb. induction items as [|x xs IH]; intros s; simpl.
  - reflexivity.
  - specialize (Hb x s). destruct (body x s) as [[e|a] s1]; simpl in *.
    + etransitivity; [exact Hb|apply IH].
    + etransitivity; [exact Hb|apply IH].
Qed.

End Respects.

Arguments respects_ret {R _ A} a.
Arguments respects_throw {R _ A} e.
Arguments respects_getGame {R _}.
Arguments respects_getWorld {R _}.
Arguments respects_bind {R _ A B} m f _ _.
Arguments respects_Promise_all {R _ A} body items _.

#[local] Instance same_games_preorder : PreOrder same_games.
Proof.
  split.
  - intros s. repeat split; reflexivity.
  - intros s1 s2 s3 (H1 & H2 & H3) (H4 & H5 & H6). repeat split; congruence.
Qed.

#[local] Instance saved_or_same_preorder : PreOrder saved_or_same.
Proof.
  split.
  - intros s. split; [reflexivity|]. split; [left; reflexivity|reflexivity].
  - intros s1 s2 s3 (H1 & H2 & He) (H3 & H4 & He'). split; [congruence|].
    split; [|congruence].
    destruct H4 as [H4|H4]; [destruct H2; [left|right]; congruence|right; congruence].
Qed.

Lemma same_games_saved_or_same {A} (m : M A) :
  respects same_games m -> respects saved_or_same m.
Proof.
  intros H s. destruct (H s) as (H1 & H2 & H3).
  split; [assumption|]. split; [left; assumption|assumption].
Qed.

Lemma same_games_modifyWorld (f : World -> World) :
  (forall w, games (f w) = games w) -> respects same_games (modifyWorld f).
Proof. intros Hf s. split; [reflexivity|]. split; [apply Hf|reflexivity]. Qed.

Lemma same_games_User_findById (id : UserId) : respects same_games (User_findById id).
Proof.
  unfold User_findById. apply respects_bind; [apply respects_getWorld|].
  intros w. destruct (users w !! id); [apply respects_ret|apply respects_throw].
Qed.

Lemma same_games_User_save (id : UserId) (u : User.t) : respects same_games (User_save id u).
Proof. apply same_games_modifyWorld. reflexivity. Qed.

Lemma same_games_updateChips (id : UserId) (amount : Z) (operation : string) :
  respects same_games (updateChips id amount operation).
Proof.
  unfold updateChips. apply respects_bind; [apply same_games_User_findById|].
  intros u. repeat case_bool_decide; try apply same_games_User_save.
  destruct (_ <? _); [apply respects_throw|apply same_games_User_save].
Qed.

Lemma same_games_createTransaction (type : string) (to : UserId) (amount : Z)
    (gameId : option nat) :
  respects same_games (createTransaction type to amount gameId).
Proof.
  unfold createTransaction. apply respects_bind; [apply respects_getWorld|].
  intros w. destruct (users w !! to); [|apply respects_throw].
  apply respects_bind.
  - repeat case_bool_decide; try apply respects_ret.
    destruct (_ <? _); [apply respects_throw|apply respects_ret].
  - intros b. apply respects_bind; [|intros _];
      apply same_games_modifyWorld; reflexivity.
Qed.

Lemma same_games_createCommissionTransaction (amount : Z) (gameId : nat) :
  respects same_games (createCommissionTransaction amount gameId).
Proof. apply same_games_modifyWorld. reflexivity. Qed.

Lemma saved_or_same_save : respects saved_or_same save.
Proof. intros s. split; [reflexivity|]. split; [right; reflexivity|reflexivity]. Qed.

(** Discharge [respects] goals over the steps of [endGame]. *)
Ltac respects_games :=
  lazymatch goal with
  | |- respects saved_or_same save => apply saved_or_same_save
  | |- respects saved_or_same (mbind _ _) =>
      apply respects_bind; [|intros ?]; respects_games
  | |- respects saved_or_same _ => apply same_games_saved_or_same; respects_games
  | |- respects same_games (mbind _ _) =>
      apply respects_bind; [|intros ?]; respects_games
  | |- respects same_games (updateChips _ _ _) => apply same_games_updateChips
  | |- respects same_games (User_findById _) => apply same_games_User_findById
  | |- respects same_games (User_save _ _) => apply same_games_User_save
  | |- respects same_games (createTransaction _ _ _ _) => apply same_games_createTransaction
  | |- respects same_games (createGameWinTransaction _ _ _) =>
      apply same_games_createTransaction
  | |- respects same_games (createGameLossTransaction _ _ _) =>
      apply same_games_createTransaction
  | |- respects same_games (createCommissionTransaction _ _) =>
      apply same_games_createCommissionTransaction
  | |- respects same_games (Promise_all _ _) =>
      apply respects_Promise_all; intros ?; respects_games
  | |- respects same_games (if ?b then _ else _) => destruct b; respects_games
  | |- respects same_games (mret _) => apply respects_ret
  | |- respects same_games (throw _) => apply respects_throw
  end.

Lemma try_catch_modifyGame (f : Game.t -> Game.t) (rest : M unit) (s : Run) :
  respects saved_or_same rest ->
  fst (try_catch (modifyGame f ;; rest) s) = inr tt /\
  game (snd (try_catch (modifyGame f ;; rest) s)) = f (game s) /\
  (games (world (snd (try_catch (modifyGame f ;; rest) s))) = games (world s) \/
   games (world (snd (try_catch (modifyGame f ;; rest) s))) = f (game s)) /\
  emitted (snd (try_catch (modifyGame f ;; rest) s)) = emitted s.
Proof.
  intros Hrest. unfold try_catch, mbind, M_bind, modifyGame.
  specialize (Hrest (mkRun (f (game s)) (world s) (emitted s))).
  destruct (rest _) as [[e|[]] s1]; simpl in *;
    destruct Hrest as (H1 & H2 & H3); repeat split; assumption.
Qed.

(** [endGame] never throws and emits nothing to the acting socket or the
    room; the loaded game gets the result written on it, and the stored
    game either stays or becomes that game. *)
Lemma endGame_games (winner : Player.t) (s : Run) :
  fst (endGame winner s) = inr tt /\
  game (snd (endGame winner s)) = declare winner (game s) /\
  (games (world (snd (endGame winner s))) = games (world s) \/
   games (world (snd (endGame winner s))) = declare winner (game s)) /\
  emitted (snd (endGame winner s)) = emitted s.
Proof.
  unfold endGame. apply try_catch_modifyGame.
  apply respects_bind; [apply respects_getWorld|]. intros w.
  apply respects_bind; [apply respects_getGame|]. intros g.
  destruct (commissionOf _ _); [|apply respects_throw].
  respects_games.
Qed.

(** ** Refused actions *)

(** Close a case whose only emission is a [player_action]. *)
Ltac no_error H :=
  let msg := fresh "msg" in
  destruct H as [msg H]; cbn [fst snd emitted app] in H;
  apply list_elem_of_singleton in H; discriminate H.

(** A leaf of the case analysis: either nothing was written, or nothing
    was refused. *)
Ltac unchanged_or_no_error :=
  let H := fresh "Herr" in
  intros H; first [reflexivity | no_error H].

(** Whatever the message and its outcome, when the answer contains an
    [error] the stores are exactly as before: a handler touches the
    stores only after its last check, and nothing that follows the first
    write can fail. *)
Lemma error_leaves_world_unchanged (w : World) (userId : UserId) (gameId : nat)
    (action : string) (amount : Z) :
  (exists msg, error msg ∈ snd (handleGameAction w userId gameId action amount)) ->
  fst (handleGameAction w userId gameId action amount) = w.
Proof.
  unfold handleGameAction, gameAction. run.
  case_bool_decide; cbn [negb]; [|unchanged_or_no_error].
  destruct (findIndex userId _) as [i|] eqn:Hidx; [|unchanged_or_no_error].
  destruct (findIndex_Some _ _ _ Hidx) as (p & Hp & Hup).
  case_bool_decide; cbn [negb]; [|unchanged_or_no_error].
  repeat case_bool_decide; try subst action.
  - (* fold *)
    unfold handleFold. run. rewrite Hp.
    destruct (users w !! Player.user p) as [u|] eqn:Hu; [|unchanged_or_no_error].
    destruct (_ =? 1)%nat.
    + destruct (filter _ _ !! 0%nat) as [winner|]; [|unchanged_or_no_error].
      match goal with
      | |- context [endGame winner ?s1] =>
          destruct (endGame_games winner s1) as (Hr & _ & _ & He);
          destruct (endGame winner s1) as [r [g2 w2 evs2]]
      end.
      simpl in Hr, He. subst r evs2. cbn iota beta. unchanged_or_no_error.
    + rewrite moveToNextPlayer_run. run. unchanged_or_no_error.
  - (* call *)
    unfold handleCall. run. rewrite Hp.
    destruct (users w !! Player.user p) as [u|] eqn:Hu; [|unchanged_or_no_error].
    destruct (_ <? _) eqn:Hc; [unchanged_or_no_error|].
    rewrite updateChips_subtract_run with (u := u) by assumption.
    run. rewrite moveToNextPlayer_run. run. unchanged_or_no_error.
  - (* raise *)
    unfold handleRaise. run. rewrite Hp.
    destruct (users w !! Player.user p) as [u|] eqn:Hu; [|unchanged_or_no_error].
    destruct (_ || _); [unchanged_or_no_error|].
    destruct (_ <? _) eqn:Hc; [unchanged_or_no_error|].
    rewrite updateChips_subtract_run with (u := u) by assumption.
    run. rewrite moveToNextPlayer_run. run. unchanged_or_no_error.
  - (* check *)
    unfold handleCheck. run. rewrite Hp.
    destruct (_ <? _); [unchanged_or_no_error|].
    destruct (users w !! Player.user p) as [u|] eqn:Hu; [|unchanged_or_no_error].
    rewrite moveToNextPlayer_run. run. unchanged_or_no_error.
  - (* show *)
    unfold handleShow. run. rewrite Hp.
    destruct (users w !! Player.user p) as [u|] eqn:Hu; [|unchanged_or_no_error].
    unchanged_or_no_error.
  - (* blind *)
    unfold handleBlind. run. rewrite Hp.
    destruct (users w !! Player.user p) as [u|] eqn:Hu; [|unchanged_or_no_error].
    destruct (_ <? _) eqn:Hc; [unchanged_or_no_error|].
    rewrite updateChips_subtract_run with (u := u) by assumption.
    run. rewrite moveToNextPlayer_run. run. unchanged_or_no_error.
  - unchanged_or_no_error.
Qed.



(** The scenario of the specification: with 5 chips Bob cannot call 10. *)
Example short_call_rejected :
  (chipsOf bob world_short,
   Game.currentBet (games world_short) - Player.currentBet (seat_of world_short 1))
  = (Some 5, 10).
Proof. vm_compute. reflexivity. Qed.


(** ** The pot *)

Lemma sumTotalBet_cons (q : Player.t) (l : list Player.t) :
  sumTotalBet (q :: l) = Player.totalBet q + sumTotalBet l.
Proof. reflexivity. Qed.

Lemma sumTotalBet_alter (f : Player.t -> Player.t) (players : list Player.t)
    (i : nat) (p : Player.t) :
  players !! i = Some p ->
  sumTotalBet (alter f i players)
  = sumTotalBet players - Player.totalBet p + Player.totalBet (f p).
Proof.
  revert i. induction players as [|q l IH]; intros i Hp; [discriminate|].
  destruct i as [|i].
  - injection Hp as ->.
    change (alter f 0%nat (p :: l)) with (f p :: l).
    rewrite !sumTotalBet_cons. lia.
  - change (alter f (S i) (q :: l)) with (q :: alter f i l).
    rewrite !sumTotalBet_cons, (IH i Hp). lia.
Qed.

Lemma advance_fields (g : Game.t) :
  Game.pot (advance g) = Game.pot g /\
  Game.players (advance g) = Game.players g /\
  Game.gameHistory (advance g) = Game.gameHistory g /\
  Game.status (advance g) = Game.status g /\
  Game.currentBet (advance g) = Game.currentBet g.
Proof.
  unfold advance. destruct (_ <=? _)%nat; [auto|].
  destruct (nextActive _ _ _); auto.
Qed.

Lemma potInvariant_advance (g : Game.t) : potInvariant g -> potInvariant (advance g).
Proof.
  unfold potInvariant. destruct (advance_fields g) as (-> & -> & _). auto.
Qed.

(** After a bet of [c] by seat [i], logged and with the turn advanced,
    the pot is still the sum of the total bets. *)
Ltac after_bet Hp Hinv :=
  cbn [fst world games set_games];
  apply potInvariant_advance; unfold potInvariant in *;
  cbn [Game.pot Game.players Game.set_gameHistory Game.set_pot Game.set_currentBet
       Game.update_player Game.set_players];
  try match goal with
      | |- context [if ?b then _ else _] => destruct b
      end;
  cbn [Game.pot Game.players Game.set_gameHistory Game.set_pot Game.set_currentBet
       Game.update_player Game.set_players];
  rewrite (sumTotalBet_alter _ _ _ _ Hp), Hinv; simpl; lia.

(** The stored game keeps [pot == sum of totalBet] over every handled
    action, whatever the action and its outcome. *)
Lemma handleGameAction_potInvariant (w : World) (userId : UserId) (gameId : nat)
    (action : string) (amount : Z) :
  potInvariant (games w) ->
  potInvariant (games (fst (handleGameAction w userId gameId action amount))).
Proof.
  intros Hinv. unfold handleGameAction, gameAction. run.
  case_bool_decide; cbn [negb]; [|exact Hinv].
  destruct (findIndex userId _) as [i|] eqn:Hidx; [|exact Hinv].
  destruct (findIndex_Some _ _ _ Hidx) as (p & Hp & Hup).
  case_bool_decide; cbn [negb]; [|exact Hinv].
  repeat case_bool_decide; try subst action.
  - (* fold *)
    unfold handleFold. run. rewrite Hp.
    destruct (users w !! Player.user p) as [u|] eqn:Hu; [|exact Hinv].
    match goal with
    | |- context [filter ?P (Game.players ?g1)] =>
        set (g' := g1);
        assert (Hinv' : potInvariant g')
    end.
    { unfold potInvariant, g' in *.
      cbn [Game.pot Game.players Game.set_gameHistory Game.update_player Game.set_players].
      rewrite (sumTotalBet_alter _ _ _ _ Hp), Hinv. simpl. lia. }
    destruct (_ =? 1)%nat.
    + destruct (filter _ _ !! 0%nat) as [winner|]; [|exact Hinv].
      match goal with
      | |- context [endGame winner ?s1] =>
          destruct (endGame_games winner s1) as (Hr & Hg & Hs & _);
          destruct (endGame winner s1) as [r s2]
      end.
      simpl in Hr, Hg, Hs. subst r. cbn iota beta. cbn [fst world game emitted].
      change (potInvariant (games (world s2))).
      destruct Hs as [->| ->]; [exact Hinv|exact Hinv'].
    + rewrite moveToNextPlayer_run. run. cbn [fst world games set_games].
      apply potInvariant_advance. exact Hinv'.
  - (* call *)
    unfold handleCall. run. rewrite Hp.
    destruct (users w !! Player.user p) as [u|] eqn:Hu; [|exact Hinv].
    destruct (_ <? _) eqn:Hc; [exact Hinv|].
    rewrite updateChips_subtract_run with (u := u) by assumption.
    run. rewrite moveToNextPlayer_run. run. after_bet Hp Hinv.
  - (* raise *)
    unfold handleRaise. run. rewrite Hp.
    destruct (users w !! Player.user p) as [u|] eqn:Hu; [|exact Hinv].
    destruct (_ || _); [exact Hinv|].
    destruct (_ <? _) eqn:Hc; [exact Hinv|].
    rewrite updateChips_subtract_run with (u := u) by assumption.
    run. rewrite moveToNextPlayer_run. run. after_bet Hp Hinv.
  - (* check *)
    unfold handleCheck. run. rewrite Hp.
    destruct (_ <? _); [exact Hinv|].
    destruct (users w !! Player.user p) as [u|] eqn:Hu; [|exact Hinv].
    rewrite moveToNextPlayer_run. run. after_bet Hp Hinv.
  - (* show *)
    unfold handleShow. run. rewrite Hp.
    destruct (users w !! Player.user p) as [u|] eqn:Hu; [|exact Hinv].
    cbn [fst world games set_games]. unfold potInvariant in *.
    cbn [Game.pot Game.players Game.set_gameHistory Game.update_player Game.set_players].
    rewrite (sumTotalBet_alter _ _ _ _ Hp), Hinv. simpl. lia.
  - (* blind *)
    unfold handleBlind. run. rewrite Hp.
    destruct (users w !! Player.user p) as [u|] eqn:Hu; [|exact Hinv].
    destruct (_ <? _) eqn:Hc; [exact Hinv|].
    rewrite updateChips_subtract_run with (u := u) by assumption.
    run. rewrite moveToNextPlayer_run. run. after_bet Hp Hinv.
  - exact Hinv.
Qed.

(** The scenario of the specification: the blind makes the pot and the
    table bet 10, the call makes the pot 20. *)
Example scenario_pot :
  (fun g => (Game.pot g, Game.currentBet g)) (games world_after_blind) = (10, 10) /\
  Game.pot (games (play world_started
                     [(alice, "blind"%string, 0); (bob, "call"%string, 0)])) = 20.
Proof. split; vm_compute; reflexivity. Qed.


(** ** Every action is logged and passes the turn *)

Ltac run_in H :=
  cbv [mbind M_bind mret M_ret getGame getWorld modifyGame modifyWorld emit throw
       getPlayer modifyPlayer User_findById User_save addToHistory save broadcast
       game world emitted] in H.

Lemma advanced_turn (g1 g0 : Game.t) (e : History.t) :
  Game.gameHistory g1 = Game.gameHistory g0 ++ [e] ->
  Game.currentPlayerIndex g1 = Game.currentPlayerIndex g0 ->
  Game.status g1 = Game.status g0 ->
  (2 <= length (filter (fun p => Player.inHand p = true) (Game.players (advance g1))))%nat ->
  Game.gameHistory (advance g1) = Game.gameHistory g0 ++ [e] /\
  Game.status (advance g1) = Game.status g0 /\
  next_seat (Game.players (advance g1)) (Game.currentPlayerIndex g0)
    (Game.currentPlayerIndex (advance g1)).
Proof.
  intros Hh Hc Hs Hn.
  destruct (advance_fields g1) as (_ & Hpl & Hhist & Hst & _).
  rewrite Hpl in *. rewrite Hhist, Hst, Hh, Hs.
  destruct (advance_next_seat g1 Hn) as (j & _ & -> & Hnext).
  rewrite Hc in Hnext. auto.
Qed.

Lemma turn_concluded (w w1 : World) (userId : UserId) (action : string)
    (g1 : Game.t) (evs : list Event) (e : History.t) :
  Game.gameHistory g1 = Game.gameHistory (games w) ++ [e] ->
  History.action e = action ->
  History.player e = userId ->
  Game.currentPlayerIndex g1 = Game.currentPlayerIndex (games w) ->
  Game.status g1 = Game.status (games w) ->
  (2 <= length (filter (fun p => Player.inHand p = true) (Game.players (advance g1))))%nat ->
  logged_and_advanced w userId action (mkRun (advance g1) (set_games (advance g1) w1) evs).
Proof.
  intros Hh Ha Hpl Hc Hs Hn.
  destruct (advanced_turn g1 (games w) e Hh Hc Hs Hn) as (H1 & H2 & H3).
  unfold logged_and_advanced. cbn [game world games set_games].
  split; [reflexivity|]. split; [assumption|]. split; [|assumption].
  exists e. auto.
Qed.

Ltac conclude_turn Hmore :=
  match goal with
  | H : (inr tt, ?s) = (inr tt, _) |- _ => injection H as <-
  end;
  cbn [game] in Hmore;
  eapply turn_concluded;
  [reflexivity|reflexivity|assumption|reflexivity|reflexivity|exact Hmore].



(** After the blind the turn is Bob's. *)
Example blind_passes_the_turn :
  Game.currentPlayerIndex (games world_after_blind) = 1%nat.
Proof. vm_compute. reflexivity. Qed.


(** ** Leaving *)

(** C5 (as the code has it): for a user whose current game is the stored
    one and who is seated in it, the leave route answers 200 and
    - in an active game marks the seat folded and not playing, keeps every
      player in the list (so the pot and the total bets stay), appends a
      fold entry to the history, and then, if exactly one player is left
      in the hand, sets the status to completed with that player as
      winner, and otherwise leaves the status active;
    - in a waiting game removes the user's seat and renumbers the
      positions of the remaining seats 0, 1, 2, ... in order, the status
      staying waiting.
    The route never sets the status to cancelled. *)
Theorem C5_leave_folds_or_removes (w : World) (userId : UserId) (u : User.t) (i : nat) :
  users w !! userId = Some u ->
  User.currentGameId u = Some (Game._id (games w)) ->
  findIndex userId (Game.players (games w)) = Some i ->
  snd (leave w userId) = (200%nat, "Successfully left game"%string) /\
  (Game.status (games w) = active ->
   let g' := games (fst (leave w userId)) in
   let remaining := filter (fun p => Player.inHand p = true) (Game.players g') in
   Game.players g' = alter foldOut i (Game.players (games w)) /\
   Game.pot g' = Game.pot (games w) /\
   Game.gameHistory g'
   = Game.gameHistory (games w)
     ++ [History.mk "fold" userId 0 (User.username u +:+ " left the game (folded)")] /\
   (length remaining = 1%nat ->
    Game.status g' = completed /\ Game.winner g' = Player.user <$> remaining !! 0%nat) /\
   (length remaining <> 1%nat ->
    Game.status g' = active /\ Game.winner g' = Game.winner (games w))) /\
  (Game.status (games w) = waiting ->
   let g' := games (fst (leave w userId)) in
   Game.players g'
   = reposition (filter (fun p => Player.user p <> userId) (Game.players (games w))) /\
   (forall j q, Game.players g' !! j = Some q ->
                Player.position q = j /\ Player.user q <> userId) /\
   Game.status g' = waiting).
Proof.
  intros Hu Hgid Hidx.
  unfold leave, leaveBody. run. rewrite Hu, Hgid.
  rewrite bool_decide_eq_true_2 by reflexivity. cbn [negb].
  case_bool_decide as Hst.
  - (* active *)
    rewrite Hidx. run.
    match goal with
    | |- context [(length (filter ?P ?l) =? 1)%nat] =>
        destruct (length (filter P l) =? 1)%nat eqn:Hone
    end; cbn [fst snd world games set_games set_users].
    + apply Nat.eqb_eq in Hone. cbn [Game.players Game.set_gameHistory] in Hone.
      split; [reflexivity|]. split; [|intros Hw; congruence].
      intros _. cbn zeta.
      cbn [Game.players Game.pot Game.gameHistory Game.status Game.winner
           Game.set_winner Game.set_status Game.set_gameHistory Game.update_player
           Game.set_players].
      split; [reflexivity|]. split; [reflexivity|]. split; [reflexivity|].
      split; intros Hlen; [split; reflexivity|].
      exfalso. apply Hlen. exact Hone.
    + apply Nat.eqb_neq in Hone. cbn [Game.players Game.set_gameHistory] in Hone.
      split; [reflexivity|]. split; [|intros Hw; congruence].
      intros _. cbn zeta.
      cbn [Game.players Game.pot Game.gameHistory Game.status Game.winner
           Game.set_winner Game.set_status Game.set_gameHistory Game.update_player
           Game.set_players].
      split; [reflexivity|]. split; [reflexivity|]. split; [reflexivity|].
      split; intros Hlen; [|split; [assumption|reflexivity]].
      exfalso. apply Hone. exact Hlen.
  - (* not active *)
    unfold removePlayer. run.
    cbn [Game.status Game.set_players].
    rewrite (bool_decide_eq_false_2 _ Hst), andb_false_r.
    cbn [fst snd world games set_games set_users].
    split; [reflexivity|]. split; [intros Ha; congruence|].
    intros Hw. cbn zeta. cbn [Game.players Game.set_players Game.status].
    split; [reflexivity|]. split; [|assumption].
    intros j q Hq. unfold reposition in Hq.
    rewrite list_lookup_imap in Hq.
    destruct (filter _ _ !! j) as [q0|] eqn:Hq0; [|discriminate].
    simpl in Hq. injection Hq as <-. split; [reflexivity|].
    apply list_elem_of_lookup_2 in Hq0. apply list_elem_of_filter in Hq0 as [Hne _].
    exact Hne.
Qed.

Lemma C5_leave_folds_or_removes_witness :
  snd (leave world_started alice) = (200%nat, "Successfully left game"%string).
Proof.
  apply (C5_leave_folds_or_removes world_started alice (user_of world_started alice) 0%nat).
  - vm_compute. reflexivity.
  - vm_compute. reflexivity.
  - vm_compute. reflexivity.
Defined.

(** C5 (the claim as stated fails): when Alice leaves the started
    two-player game, one player is left in the hand; both players stay in
    the list, and the status becomes completed with Bob as winner, not
    cancelled. *)
Lemma C5_leave_completes_not_cancels :
  (Game.status (games world_started), length (Game.players (games world_started)))
  = (active, 2%nat) /\
  (fun g => (Game.status g, Game.winner g, Player.user <$> Game.players g,
             Player.inHand <$> Game.players g))
    (games (fst (leave world_started alice)))
  = (completed, Some bob, [alice; bob], [false; true]).
Proof. split; vm_compute; reflexivity. Qed.

(** ** Settlement *)

Lemma updateChips_add_run (s : Run) (id : UserId) (u : User.t) (amount : Z) :
  users (world s) !! id = Some u ->
  updateChips id amount "add" s
  = (inr tt, mkRun (game s)
               (set_users (<[id := User.set_chips (User.chips u + amount) u]> (users (world s)))
                  (world s))
               (emitted s)).
Proof.
  intros Hu. unfold updateChips.
  rewrite bool_decide_eq_true_2 by reflexivity.
  destruct s as [g w evs]. run. simpl in Hu. rewrite Hu. reflexivity.
Qed.

(** The statistics loop of [endGame] ends without an exception when the
    user of every player exists, and changes no balance. *)
Lemma stats_loop (winner : Player.t) (players : list Player.t) (s : Run) :
  (forall p, p ∈ players -> is_Some (users (world s) !! Player.user p)) ->
  exists s',
    Promise_all (fun player =>
        user ← User_findById (Player.user player);
        User_save (Player.user player)
          (User.mk (User.username user) (User.chips user)
             (User.gamesWon user) (User.gamesPlayed user + 1)
             (User.totalChipsWon user)
             (if bool_decide (Player.user player ≠ Player.user winner)
              then User.totalChipsLost user + Player.totalBet player
              else User.totalChipsLost user)
             None)) players s
    = (inr tt, s') /\ stats_only s s'.
Proof.
  revert s. induction players as [|p ps IH]; intros s Hall.
  - exists s. split; [reflexivity|]. unfold stats_only. auto 10.
  - destruct (Hall p) as [u Hu]; [left|].
    destruct s as [g w evs]. cbn [game world emitted] in *.
    cbn [Promise_all]. run. rewrite Hu.
    match goal with
    | |- context [Promise_all _ ps ?s1] => destruct (IH s1) as (s' & Hrun & Hs')
    end.
    { intros q Hq. cbn [world users set_users].
      destruct (decide (Player.user q = Player.user p)) as [->|Hne].
      - rewrite lookup_insert_eq. eauto.
      - rewrite lookup_insert_ne by congruence. apply Hall. right. assumption. }
    run_in Hrun. rewrite Hrun. exists s'. split; [reflexivity|].
    destruct Hs' as (H1 & H2 & H3 & H4 & H5 & H6).
    unfold stats_only. cbn [game world emitted games transactions set_users
                             PLATFORM_COMMISSION_RATE] in *.
    repeat split; try assumption.
    intros id. rewrite H6. unfold chipsOf. cbn [users set_users].
    destruct (decide (id = Player.user p)) as [->|Hne].
    + rewrite lookup_insert_eq, Hu. reflexivity.
    + rewrite lookup_insert_ne by congruence. reflexivity.
Qed.

#[local] Instance keeps_balance_preorder (id : UserId) : PreOrder (keeps_balance id).
Proof.
  split.
  - intros s. split; [reflexivity|]. exists []. rewrite app_nil_r. reflexivity.
  - intros s1 s2 s3 [H1 [m1 H2]] [H3 [m2 H4]]. split; [congruence|].
    exists (m1 ++ m2). rewrite H4, H2, app_assoc. reflexivity.
Qed.

Lemma keeps_balance_createTransaction (id to : UserId) (type : string) (amount : Z)
    (gameId : option nat) :
  to <> id -> respects (keeps_balance id) (createTransaction type to amount gameId).
Proof.
  intros Hne s. destruct s as [g w evs]. unfold createTransaction. run.
  destruct (users w !! to) as [r|] eqn:Hr; [|reflexivity].
  assert (Hfin : forall b,
    keeps_balance id (mkRun g w evs)
      (mkRun g
         (set_transactions
            (transactions (set_users (alter (User.set_chips b) to (users w)) w)
             ++ [Transaction.mk type (Some to) amount (User.chips r) b gameId])
            (set_users (alter (User.set_chips b) to (users w)) w))
         evs)).
  { intros b. split.
    - unfold chipsOf. cbn [world users set_transactions set_users].
      rewrite lookup_alter_ne by assumption. reflexivity.
    - eexists. cbn [world transactions set_transactions set_users]. reflexivity. }
  repeat case_bool_decide; cbn [snd]; try apply Hfin.
  destruct (_ <? 0); cbn [snd]; [reflexivity|apply Hfin].
Qed.

Lemma game_win_is_credit : "game_win"%string ∈ credit_types.
Proof. left. Qed.

(** What [endGame] does to the winner's balance and to the ledger: when
    the commission is a number and the user of every seated player
    exists, the winner's balance is raised once by [updateChips] and once
    more by the win transaction, and the ledger gets the win record and
    the commission record, followed by the loss records. *)
Lemma endGame_settlement (winner : Player.t) (s : Run) (u : User.t) (commission : Z) :
  users (world s) !! Player.user winner = Some u ->
  commissionOf (commissionRate (world s)) (Game.pot (game s)) = Some commission ->
  (forall p, p ∈ Game.players (game s) -> is_Some (users (world s) !! Player.user p)) ->
  let winnings := Game.pot (game s) - commission in
  exists more,
    chipsOf (Player.user winner) (world (snd (endGame winner s)))
    = Some (User.chips u + winnings + winnings) /\
    transactions (world (snd (endGame winner s)))
    = transactions (world s)
      ++ Transaction.mk "game_win" (Some (Player.user winner)) winnings
           (User.chips u + winnings) (User.chips u + winnings + winnings)
           (Some (Game._id (game s)))
      :: Transaction.mk "commission_deduct" None commission 0 0 (Some (Game._id (game s)))
      :: more.
Proof.
  intros Hu Hc Hall winnings.
  destruct s as [g w evs]. cbn [game world] in *.
  unfold endGame, try_catch. run.
  cbn [Game.pot Game.set_winningHand Game.set_winner Game.set_status].
  rewrite Hc. fold winnings.
  rewrite updateChips_add_run with (u := u) by assumption.
  run. cbn [users set_users]. rewrite lookup_insert_eq.
  match goal with
  | |- context [Promise_all _ ?ps ?s2] =>
      destruct (stats_loop winner ps s2) as (s3 & Hrun & Hs3)
  end.
  { intros p Hp. cbn [world users set_users Game.players Game.set_winningHand
                      Game.set_winner Game.set_status] in *.
    destruct (decide (Player.user p = Player.user winner)) as [->|Hne].
    - rewrite lookup_insert_eq. eauto.
    - rewrite !lookup_insert_ne by congruence. apply Hall. assumption. }
  run_in Hrun.
  cbn [Game.players Game.set_winningHand Game.set_winner Game.set_status] in Hrun |- *.
  rewrite Hrun. clear Hrun.
  destruct Hs3 as (Hg3 & He3 & Hgs3 & Ht3 & _ & Hch3).
  cbn [game world emitted games transactions set_users] in Hg3, He3, Hgs3, Ht3.
  specialize (Hch3 (Player.user winner)).
  unfold chipsOf in Hch3. cbn [world users set_users] in Hch3.
  rewrite lookup_insert_eq in Hch3. cbn [fmap option_fmap option_map User.chips] in Hch3.
  destruct s3 as [g3 w3 evs3]. cbn [game world emitted] in *. subst g3 evs3.
  destruct (users w3 !! Player.user winner) as [u3|] eqn:Hu3; [|discriminate].
  injection Hch3 as Hch3.
  unfold createGameWinTransaction, createCommissionTransaction, createTransaction.
  run. rewrite Hu3.
  rewrite (bool_decide_eq_true_2 _ game_win_is_credit).
  cbn [Game._id Game.set_winningHand Game.set_winner Game.set_status].
  match goal with
  | |- context [Promise_all ?body ?ps ?s5] =>
      assert (Hloss : respects (keeps_balance (Player.user winner)) (Promise_all body ps));
      [ apply respects_Promise_all; intros p; cbv beta;
        destruct (bool_decide (Player.user p ≠ Player.user winner)) eqn:Hcond;
        cbn [andb];
        [ destruct (0 <? Player.totalBet p);
          [ apply keeps_balance_createTransaction;
            apply bool_decide_eq_true_1 in Hcond; exact Hcond
          | intros s0; reflexivity ]
        | intros s0; reflexivity ]
      | specialize (Hloss s5); destruct (Promise_all body ps s5) as [[e|[]] [g6 w6 evs6]] ]
  end; cbn [snd world] in *;
    destruct Hloss as [Hbal [more Hmore]];
    cbn [world users transactions set_transactions set_users set_games] in Hbal, Hmore |- *;
    unfold chipsOf in Hbal |- *; cbn [world users set_users set_transactions] in Hbal;
    rewrite lookup_alter_eq, Hu3 in Hbal;
    cbn [fmap option_fmap option_map User.chips User.set_chips] in Hbal;
    exists more; cbn [users set_games]; (split; [rewrite Hbal; f_equal; lia|]);
    rewrite Hmore, Ht3, <- !app_assoc; cbn [app];
    repeat f_equal; lia.
Qed.




(** The second settlement is within reach of a client: the turn stays
    with Alice after her fold, and her folding once more ends the game
    once more. *)
Example second_fold_pays_again :
  chipsOf bob (fst (handleGameAction world_settled alice table_id "fold" 0)) = Some 170.
Proof. vm_compute. reflexivity. Qed.

(** [floor(pot * 0.03)] in binary64 is the exact [floor(3 * pot / 100)]
    for every pot up to 10000. *)
Lemma commission_three_percent_checked :
  forallb (fun pot => bool_decide (commissionOf Number.lit_0_03 pot = Some (3 * pot / 100)))
          (seqZ 0 10001) = true.
Proof. vm_compute. reflexivity. Qed.

Lemma commission_three_percent (pot : Z) :
  0 <= pot <= 10000 -> commissionOf Number.lit_0_03 pot = Some (3 * pot / 100).
Proof.
  intros Hpot.
  pose proof (proj1 (forallb_forall _ _) commission_three_percent_checked pot) as H.
  cbv beta in H. apply bool_decide_eq_true in H; [exact H|].
  apply list_elem_of_In, elem_of_seqZ. lia.
Qed.


(** ** The hands by the rules *)

Lemma allHands_evaluated_by_the_rules : forallb evaluated_by_the_rules allHands = true.
Proof. vm_compute. reflexivity. Qed.

Lemma hand_evaluated_by_the_rules (a b c : Card) :
  evaluateHand [a; b; c] = category [a; b; c] /\
  (NoDup [a; b; c] ->
   handValueOf [a; b; c] = weighted (evaluateHand [a; b; c]) (kickers [a; b; c]) /\
   well_kicked (evaluateHand [a; b; c]) (kickers [a; b; c]) = true).
Proof.
  pose proof (proj1 (forallb_forall _ _) allHands_evaluated_by_the_rules [a; b; c]) as H.
  specialize (H (proj1 (list_elem_of_In _ _) (hand_in_allHands a b c))).
  unfold evaluated_by_the_rules in H. cbv zeta in H.
  apply andb_true_iff in H as [H1 H2]. apply bool_decide_eq_true_1 in H1.
  split; [exact H1|]. intros Hnd.
  rewrite (bool_decide_eq_true_2 _ Hnd) in H2. cbn [implb] in H2.
  apply andb_true_iff in H2 as [H2 H3]. apply bool_decide_eq_true_1 in H2. auto.
Qed.

(** X2: [evaluateHand] sorts the ranks as strings and their values as
    numbers; what it returns for three cards is the category of the
    rules, whatever the order of the cards: a trail for three equal
    ranks, else a pure sequence or a sequence for three consecutive ranks
    (the ace high only) with or without one suit, else a color for one
    suit, else a high card for three different ranks, else a pair. Any
    other number of cards is a high card. *)
Theorem evaluateHand_category (cards : list Card) :
  evaluateHand cards = if decide (length cards = 3%nat) then category cards else high_card.
Proof.
  destruct cards as [|a [|b [|c [|d cards]]]]; try reflexivity.
  apply hand_evaluated_by_the_rules.
Qed.

Ltac kicker_bounds :=
  repeat match goal with
         | H : _ && _ = true |- _ => apply andb_true_iff in H as [? ?]
         | H : is_rank _ = true |- _ => unfold is_rank in H
         | H : negb _ = true |- _ => apply negb_true_iff in H
         end.

(** X3: within a category the value orders the hands of three different
    cards as the rules do: of two such hands of one category the one
    with the lesser kickers, compared from the most significant down, has
    the lesser value, and the values are equal exactly when the kickers
    are. *)
Theorem value_orders_by_kickers (a b c a' b' c' : Card) :
  NoDup [a; b; c] -> NoDup [a'; b'; c'] ->
  evaluateHand [a; b; c] = evaluateHand [a'; b'; c'] ->
  exists v v',
    handValueOf [a; b; c] = Some v /\ handValueOf [a'; b'; c'] = Some v' /\
    (v < v' <-> lex_lt (kickers [a; b; c]) (kickers [a'; b'; c'])) /\
    (v = v' <-> kickers [a; b; c] = kickers [a'; b'; c']).
Proof.
  intros Hnd Hnd' Hcat.
  destruct (proj2 (hand_evaluated_by_the_rules a b c) Hnd) as [Hv Hk].
  destruct (proj2 (hand_evaluated_by_the_rules a' b' c') Hnd') as [Hv' Hk'].
  rewrite Hv, Hv'. rewrite <- Hcat in *.
  destruct (kickers [a; b; c]) as [|x [|y [|z [|? ?]]]],
           (kickers [a'; b'; c']) as [|x' [|y' [|z' [|? ?]]]],
           (evaluateHand [a; b; c]);
    try discriminate Hk; try discriminate Hk';
    cbn [weighted well_kicked] in *; kicker_bounds;
    eexists _, _; (split; [reflexivity|]); (split; [reflexivity|]);
    cbn [lex_lt]; (split; split); intros He;
    first [lia | simplify_eq; lia | repeat f_equal; lia].
Qed.

Lemma value_orders_by_kickers_witness :
  exists v v',
    handValueOf [mkCard hearts RK; mkCard clubs R4; mkCard spades RK] = Some v /\
    handValueOf [mkCard hearts RQ; mkCard clubs RQ; mkCard spades RA] = Some v' /\
    (v < v' <-> lex_lt (kickers [mkCard hearts RK; mkCard clubs R4; mkCard spades RK])
                       (kickers [mkCard hearts RQ; mkCard clubs RQ; mkCard spades RA])) /\
    (v = v' <-> kickers [mkCard hearts RK; mkCard clubs R4; mkCard spades RK]
                = kickers [mkCard hearts RQ; mkCard clubs RQ; mkCard spades RA]).
Proof.
  apply value_orders_by_kickers; [by_evaluation | by_evaluation | reflexivity].
Defined.

Lemma sameRank_Permutation (cs cs' : list Card) : cs ≡ₚ cs' -> sameRank cs <-> sameRank cs'.
Proof.
  intros Hp. unfold sameRank. rewrite !Forall_forall.
  setoid_rewrite Forall_forall. split; intros H c Hc c' Hc'.
  - apply H; rewrite Hp; assumption.
  - apply H; rewrite <- Hp; assumption.
Qed.

Lemma sameSuit_Permutation (cs cs' : list Card) : cs ≡ₚ cs' -> sameSuit cs <-> sameSuit cs'.
Proof.
  intros Hp. unfold sameSuit. rewrite !Forall_forall.
  setoid_rewrite Forall_forall. split; intros H c Hc c' Hc'.
  - apply H; rewrite Hp; assumption.
  - apply H; rewrite <- Hp; assumption.
Qed.

Lemma consecutive_Permutation (cs cs' : list Card) :
  cs ≡ₚ cs' -> consecutive cs <-> consecutive cs'.
Proof.
  intros Hp. unfold consecutive. cbv zeta. rewrite !Exists_exists.
  split; intros (v & Hv & Hrun); exists v.
  - rewrite <- Hp. auto.
  - rewrite Hp. auto.
Qed.

Lemma category_Permutation (cs cs' : list Card) : cs ≡ₚ cs' -> category cs = category cs'.
Proof.
  intros Hp. unfold category.
  rewrite (decide_ext _ _ _ _ (sameRank_Permutation _ _ Hp)).
  rewrite (decide_ext _ _ _ _ (consecutive_Permutation _ _ Hp)).
  rewrite !(decide_ext (sameSuit cs) _ _ _ (sameSuit_Permutation _ _ Hp)).
  assert (Hnd : NoDup (rank <$> cs) <-> NoDup (rank <$> cs')) by (rewrite Hp; reflexivity).
  rewrite (decide_ext _ _ _ _ Hnd). reflexivity.
Qed.

Lemma kickersOf_Permutation (h : HandRank) (a b c : Card) (cards : list Card) :
  [a; b; c] ≡ₚ cards -> kickersOf h cards = kickersOf h [a; b; c].
Proof.
  intros Hp. apply permutations_Permutation in Hp. cbn in Hp.
  repeat (apply elem_of_cons in Hp as [->|Hp]); try (inversion Hp; fail);
    unfold kickersOf; cbn [fmap list_fmap compose]; destruct h;
    repeat (apply (f_equal2 cons); [lia|]); reflexivity.
Qed.

(** X1: the category of a hand does not depend on the order in which its
    three cards were dealt, and for three different cards neither does
    its value. *)
Theorem hand_order_irrelevant (a b c : Card) (cards : list Card) :
  [a; b; c] ≡ₚ cards ->
  evaluateHand cards = evaluateHand [a; b; c] /\
  (NoDup [a; b; c] -> handValueOf cards = handValueOf [a; b; c]).
Proof.
  intros Hp.
  assert (Hlen : length cards = 3%nat) by (rewrite <- Hp; reflexivity).
  assert (Hcat : evaluateHand cards = evaluateHand [a; b; c]).
  { destruct cards as [|a' [|b' [|c' [|? ?]]]]; try discriminate Hlen.
    rewrite (proj1 (hand_evaluated_by_the_rules a b c)).
    rewrite (proj1 (hand_evaluated_by_the_rules a' b' c')).
    symmetry. apply category_Permutation. exact Hp. }
  split; [exact Hcat|]. intros Hnd.
  destruct cards as [|a' [|b' [|c' [|? ?]]]]; try discriminate Hlen.
  assert (Hnd' : NoDup [a'; b'; c']) by (rewrite <- Hp; exact Hnd).
  rewrite (proj1 (proj2 (hand_evaluated_by_the_rules a b c) Hnd)).
  rewrite (proj1 (proj2 (hand_evaluated_by_the_rules a' b' c') Hnd')).
  unfold kickers. rewrite Hcat. f_equal. apply kickersOf_Permutation. exact Hp.
Qed.

Lemma hand_order_irrelevant_witness :
  evaluateHand [mkCard clubs R4; mkCard hearts R2; mkCard diamonds R3]
  = evaluateHand sequence_234 /\
  (NoDup sequence_234 ->
   handValueOf [mkCard clubs R4; mkCard hearts R2; mkCard diamonds R3]
   = handValueOf sequence_234).
Proof.
  apply (hand_order_irrelevant (mkCard hearts R2) (mkCard diamonds R3) (mkCard clubs R4)).
  by_evaluation.
Defined.

(** ** The shuffle *)

Lemma shuffle_from_ext {A} (rnd rnd' : nat -> nat) (i : nat) (a : list A) :
  (forall k, (1 <= k <= i)%nat -> rnd k = rnd' k) ->
  shuffle_from rnd i a = shuffle_from rnd' i a.
Proof.
  revert a. induction i as [|i IH]; intros a Hext; [reflexivity|].
  cbn [shuffle_from]. rewrite (Hext (S i)) by lia. apply IH.
  intros k Hk. apply Hext. lia.
Qed.

Lemma swap_app {A} (i j : nat) (b c : list A) :
  (i < length b)%nat -> (j < length b)%nat -> swap i j (b ++ c) = swap i j b ++ c.
Proof.
  intros Hi Hj. unfold swap.
  rewrite !lookup_app_l by assumption.
  destruct (lookup_lt_is_Some_2 b i Hi) as [x ->].
  destruct (lookup_lt_is_Some_2 b j Hj) as [y ->].
  rewrite insert_app_l by assumption.
  rewrite insert_app_l by (rewrite length_insert; assumption). reflexivity.
Qed.

Lemma swap_length {A} (i j : nat) (a : list A) : length (swap i j a) = length a.
Proof.
  unfold swap. destruct (a !! i), (a !! j); try reflexivity.
  rewrite !length_insert. reflexivity.
Qed.

Lemma shuffle_from_app {A} (rnd : nat -> nat) (i : nat) (b c : list A) :
  (forall k, rnd k <= k)%nat -> (i < length b)%nat ->
  shuffle_from rnd i (b ++ c) = shuffle_from rnd i b ++ c.
Proof.
  intros Hrnd. revert b. induction i as [|i IH]; intros b Hi; [reflexivity|].
  cbn [shuffle_from]. pose proof (Hrnd (S i)).
  rewrite swap_app by lia. apply IH. rewrite swap_length. lia.
Qed.

(** The swap that brings the card at [j] to the end of the array. *)
Lemma swap_to_the_end {A} (i j : nat) (a : list A) (x : A) :
  length a = S i -> a !! j = Some x ->
  exists b, swap i j a = b ++ [x] /\ length b = i.
Proof.
  intros Hlen Hj.
  assert (Hlast : swap i j a !! i = Some x).
  { unfold swap. destruct (lookup_lt_is_Some_2 a i) as [y Hy]; [lia|].
    rewrite Hy, Hj. destruct (decide (j = i)) as [->|Hne].
    - rewrite list_lookup_insert_eq by (rewrite length_insert; lia). congruence.
    - rewrite list_lookup_insert_ne by exact Hne.
      apply list_lookup_insert_eq. lia. }
  exists (take i (swap i j a)). split.
  - rewrite <- (take_drop i (swap i j a)) at 1. f_equal.
    rewrite (drop_S _ x i Hlast), drop_ge by (rewrite swap_length; lia). reflexivity.
  - rewrite length_take, swap_length. lia.
Qed.

(** For each permutation of the array there are draws, each within its
    range, on which [shuffleDeck] returns it. *)
Lemma shuffleDeck_reaches {A} (target deck : list A) :
  deck ≡ₚ target ->
  exists rnd, (forall i, rnd i <= i)%nat /\ shuffleDeck rnd deck = target.
Proof.
  revert deck. induction target as [|x target IH] using rev_ind; intros deck Hperm.
  - apply Permutation_nil_r in Hperm as ->. exists (fun i => i). split; [lia|reflexivity].
  - assert (Hlen : length deck = S (length target)).
    { rewrite Hperm, length_app. cbn. lia. }
    assert (Hx : x ∈ deck).
    { rewrite Hperm. apply elem_of_app. right. left. }
    apply list_elem_of_lookup_1 in Hx as [j Hj].
    pose proof (lookup_lt_Some _ _ _ Hj) as Hjlt.
    destruct (swap_to_the_end (length target) j deck x Hlen Hj) as (b & Hswap & Hb).
    assert (Hbperm : b ≡ₚ target).
    { apply (Permutation_app_inv_r [x]).
      rewrite <- Hswap, <- Hperm. apply swap_Permutation. }
    destruct (IH b Hbperm) as (rnd' & Hrnd' & Hshuffle).
    exists (fun k => if decide (k = length target) then j else rnd' k). split.
    + intros k. destruct (decide _) as [->|_]; [lia|apply Hrnd'].
    + unfold shuffleDeck in *. rewrite Hlen, Hb in *.
      cbn [Nat.sub]. rewrite Nat.sub_0_r.
      destruct (length target) as [|i] eqn:Hn.
      * destruct target; [|discriminate]. cbn [shuffle_from app].
        destruct deck as [|y [|]]; try discriminate.
        destruct j; [|discriminate]. cbn in Hj. congruence.
      * cbn [shuffle_from]. rewrite decide_True by reflexivity. rewrite Hswap.
        rewrite shuffle_from_app.
        -- f_equal. rewrite <- Hshuffle. cbn [Nat.sub]. rewrite Nat.sub_0_r.
           apply shuffle_from_ext. intros k Hk. rewrite decide_False by lia. reflexivity.
        -- intros k. destruct (decide _) as [->|_]; [lia|apply Hrnd'].
        -- lia.
Qed.

(** X4: with every draw within its range, what [shuffleDeck] can return
    for an array are exactly its permutations: the result always is one,
    and for each permutation there are draws that give it, so no order
    of the deck is out of reach. *)
Theorem shuffleDeck_returns_the_permutations {A} (deck target : list A) :
  (exists rnd, (forall i, rnd i <= i)%nat /\ shuffleDeck rnd deck = target) <->
  deck ≡ₚ target.
Proof.
  split.
  - intros (rnd & _ & <-). symmetry. apply shuffleDeck_Permutation.
  - apply shuffleDeck_reaches.
Qed.

(** ** Seats *)

Lemma Exists_seated (userId : UserId) (players : list Player.t) :
  Exists (fun p => Player.user p = userId) players <-> userId ∈ Player.user <$> players.
Proof.
  rewrite Exists_exists, list_elem_of_fmap. split.
  - intros (p & Hp & <-). eauto.
  - intros (p & -> & Hp). eauto.
Qed.

(** X5: on a table whose seats are in order, [addPlayer] either seats the
    user and saves, or throws and changes nothing. When it goes through,
    the game was waiting, the new player is appended with the next
    position and the defaults of the schema, nothing else of the game
    changes, the stored game is the loaded one, and the seats are still
    in order. When it throws, the table is full, or else the game is not
    waiting, or else the user has a seat already, and the message says
    which. *)
Theorem addPlayer_seats_or_refuses (userId : UserId) (s : Run) :
  seated_well (game s) ->
  match addPlayer userId s with
  | (inr _, s') =>
      Game.players (game s')
      = Game.players (game s) ++ [Player.fresh userId (length (Game.players (game s)))] /\
      Game.status (game s) = waiting /\
      game s' = Game.set_players (Game.players (game s')) (game s) /\
      world s' = set_games (game s') (world s) /\
      emitted s' = emitted s /\
      seated_well (game s')
  | (inl e, s') =>
      s' = s /\
      ((e = Error "Game is full" /\
        (Game.maxPlayers (game s) <= length (Game.players (game s)))%nat) \/
       (e = Error "Cannot join game in progress" /\ Game.status (game s) <> waiting) \/
       (e = Error "Player already in game" /\ seated userId (game s)))
  end.
Proof.
  intros (Hnd & Hpos & Hlen). destruct s as [g w evs]. cbn [game world emitted] in *.
  unfold addPlayer. run.
  destruct (_ <=? _)%nat eqn:Hfull.
  { split; [reflexivity|]. left. split; [reflexivity|]. apply Nat.leb_le. exact Hfull. }
  apply Nat.leb_gt in Hfull.
  case_bool_decide as Hst; cbn [negb].
  2:{ split; [reflexivity|]. right; left. auto. }
  case_bool_decide as Hex.
  { split; [reflexivity|]. right; right. split; [reflexivity|].
    apply Exists_seated. exact Hex. }
  cbn [Game.players Game.set_players].
  split; [reflexivity|]. split; [exact Hst|]. split; [reflexivity|].
  split; [reflexivity|]. split; [reflexivity|].
  unfold seated_well. cbn [Game.players Game.set_players Game.maxPlayers].
  split; [|split].
  - rewrite fmap_app. apply NoDup_app. split; [exact Hnd|]. split.
    + intros x Hx Hx'. apply list_elem_of_singleton in Hx'. cbn in Hx'. subst x.
      apply Hex, Exists_seated. exact Hx.
    + apply NoDup_singleton.
  - intros i p Hp. apply lookup_app_Some in Hp as [Hp|[Hi Hp]]; [apply Hpos; exact Hp|].
    destruct (i - length (Game.players g))%nat eqn:Hd; [|discriminate].
    injection Hp as <-. cbn. lia.
  - rewrite length_app. cbn. lia.
Qed.

Lemma reposition_users (players : list Player.t) :
  Player.user <$> reposition players = Player.user <$> players.
Proof.
  unfold reposition. rewrite fmap_imap.
  rewrite (imap_ext _ (const Player.user)) by reflexivity.
  apply imap_const.
Qed.

Lemma filter_users (userId : UserId) (players : list Player.t) :
  Player.user <$> filter (fun p => Player.user p <> userId) players
  = filter (fun x => x <> userId) (Player.user <$> players).
Proof.
  induction players as [|p l IH]; [reflexivity|].
  rewrite fmap_cons, !filter_cons. destruct (decide (Player.user p <> userId)).
  - rewrite fmap_cons, IH. reflexivity.
  - exact IH.
Qed.

Lemma reposition_id (players : list Player.t) :
  (forall i p, players !! i = Some p -> Player.position p = i) ->
  reposition players = players.
Proof.
  intros Hpos. apply list_eq. intros i. unfold reposition.
  rewrite list_lookup_imap.
  destruct (players !! i) as [p|] eqn:Hp; [|reflexivity].
  cbn. f_equal. rewrite <- (Hpos i p Hp). destruct p. reflexivity.
Qed.

Lemma filter_not_seated (userId : UserId) (players : list Player.t) :
  userId ∉ Player.user <$> players ->
  filter (fun p => Player.user p <> userId) players = players.
Proof.
  induction players as [|p l IH]; intros Hn; [reflexivity|].
  rewrite fmap_cons in Hn. apply not_elem_of_cons in Hn as [Hne Hn].
  rewrite filter_cons_True by congruence. rewrite IH by exact Hn. reflexivity.
Qed.

(** X6: [removePlayer] never throws. It takes out the seat of the user
    and leaves the other players in their order, each with the position
    of the new index and otherwise untouched; it sets the status to
    cancelled exactly when fewer than two players are left of an active
    game; it saves; seats in order stay in order; and for a user without
    a seat at such a table the players stay as they are. *)
Theorem removePlayer_reseats (userId : UserId) (s : Run) :
  exists players',
    removePlayer userId s
    = (inr tt,
       mkRun (Game.set_status (status_after_removal (game s) (length players'))
                (Game.set_players players' (game s)))
             (set_games (Game.set_status (status_after_removal (game s) (length players'))
                           (Game.set_players players' (game s)))
                (world s))
             (emitted s)) /\
    Player.user <$> players'
    = filter (fun x => x <> userId) (Player.user <$> Game.players (game s)) /\
    (forall j q, players' !! j = Some q ->
       Player.position q = j /\
       exists p, p ∈ Game.players (game s) /\ q = Player.set_position j p) /\
    (seated_well (game s) ->
     seated_well (Game.set_status (status_after_removal (game s) (length players'))
                    (Game.set_players players' (game s)))) /\
    (seated_well (game s) -> ~ seated userId (game s) ->
     players' = Game.players (game s)).
Proof.
  destruct s as [g w evs]. cbn [game world emitted].
  exists (reposition (filter (fun p => Player.user p <> userId) (Game.players g))).
  split; [|split; [|split; [|split]]].
  - unfold removePlayer. run. cbn [Game.players Game.set_players Game.status].
    unfold status_after_removal.
    destruct (length _ <? 2)%nat eqn:Hlt; cbn [andb].
    + apply Nat.ltb_lt in Hlt. case_bool_decide as Hst.
      * rewrite decide_True by auto. destruct g; reflexivity.
      * rewrite decide_False by tauto. destruct g; reflexivity.
    + apply Nat.ltb_ge in Hlt. rewrite decide_False by lia. destruct g; reflexivity.
  - rewrite reposition_users. apply filter_users.
  - intros j q Hq. unfold reposition in Hq. rewrite list_lookup_imap in Hq.
    destruct (filter _ _ !! j) as [p|] eqn:Hp; [|discriminate].
    cbn in Hq. injection Hq as <-. split; [reflexivity|].
    exists p. split; [|reflexivity].
    apply list_elem_of_lookup_2 in Hp. apply list_elem_of_filter in Hp as [_ Hp]. exact Hp.
  - intros (Hnd & Hpos & Hlen). unfold seated_well.
    cbn [Game.players Game.set_players Game.set_status Game.maxPlayers].
    split; [|split].
    + rewrite reposition_users, filter_users. apply NoDup_filter. exact Hnd.
    + intros j q Hq. unfold reposition in Hq. rewrite list_lookup_imap in Hq.
      destruct (filter _ _ !! j) as [p|]; [|discriminate].
      cbn in Hq. injection Hq as <-. reflexivity.
    + unfold reposition. rewrite length_imap.
      pose proof (length_filter (fun p => Player.user p <> userId) (Game.players g)). lia.
  - intros (Hnd & Hpos & Hlen) Hns. unfold seated in Hns.
    rewrite filter_not_seated by exact Hns. apply reposition_id. exact Hpos.
Qed.

(** X7: joining a waiting table with room and leaving it again gives the
    table back: after [addPlayer] and [removePlayer] of a user who had no
    seat, the loaded game is what it was, and it is the stored one. *)
Theorem addPlayer_removePlayer_round_trip (userId : UserId) (s : Run) :
  seated_well (game s) ->
  Game.status (game s) = waiting ->
  (length (Game.players (game s)) < Game.maxPlayers (game s))%nat ->
  ~ seated userId (game s) ->
  (addPlayer userId;; removePlayer userId) s
  = (inr tt, mkRun (game s) (set_games (game s) (world s)) (emitted s)).
Proof.
  intros (Hnd & Hpos & Hlen) Hst Hroom Hns.
  destruct s as [g w evs]. cbn [game world emitted] in *.
  unfold addPlayer, removePlayer. run.
  rewrite (proj2 (Nat.leb_gt _ _) Hroom).
  rewrite (bool_decide_eq_true_2 _ Hst). cbn [negb].
  rewrite bool_decide_eq_false_2 by (rewrite Exists_seated; exact Hns).
  cbn [Game.players Game.set_players Game.status].
  rewrite (bool_decide_eq_false_2 (Game.status g = active)) by congruence.
  rewrite andb_false_r.
  rewrite filter_app, filter_not_seated by exact Hns.
  rewrite filter_cons_False, filter_nil, app_nil_r by (cbn; tauto).
  rewrite reposition_id by exact Hpos.
  destruct g, w; reflexivity.
Qed.

Example table_waiting_seated_well : seated_well table_waiting.
Proof.
  split; [by_evaluation|]. split; [|cbn; lia].
  intros [|[|i]] p Hp; cbn in Hp; try discriminate Hp; injection Hp as <-; reflexivity.
Qed.

Lemma addPlayer_seats_or_refuses_witness :
  match addPlayer 3%nat (mkRun table_waiting world_waiting []) with
  | (inr _, s') =>
      Game.players (game s')
      = Game.players table_waiting
        ++ [Player.fresh 3%nat (length (Game.players table_waiting))] /\
      Game.status table_waiting = waiting /\
      game s' = Game.set_players (Game.players (game s')) table_waiting /\
      world s' = set_games (game s') world_waiting /\
      emitted s' = [] /\
      seated_well (game s')
  | (inl e, s') =>
      s' = mkRun table_waiting world_waiting [] /\
      ((e = Error "Game is full" /\
        (Game.maxPlayers table_waiting <= length (Game.players table_waiting))%nat) \/
       (e = Error "Cannot join game in progress" /\ Game.status table_waiting <> waiting) \/
       (e = Error "Player already in game" /\ seated 3%nat table_waiting))
  end.
Proof.
  apply (addPlayer_seats_or_refuses 3%nat (mkRun table_waiting world_waiting [])).
  exact table_waiting_seated_well.
Defined.

Lemma addPlayer_removePlayer_round_trip_witness :
  (addPlayer 3%nat;; removePlayer 3%nat) (mkRun table_waiting world_waiting [])
  = (inr tt, mkRun table_waiting (set_games table_waiting world_waiting) []).
Proof.
  apply (addPlayer_removePlayer_round_trip 3%nat (mkRun table_waiting world_waiting [])).
  - exact table_waiting_seated_well.
  - reflexivity.
  - cbn. lia.
  - unfold seated. by_evaluation.
Defined.

(** ** Starting the game *)

Lemma same_seat_refl (p : Player.t) : same_seat p p.
Proof. destruct p. reflexivity. Qed.

Lemma same_seat_set_hand (p : Player.t) cs r v : same_seat p (Player.set_hand cs r v p).
Proof. destruct p. reflexivity. Qed.

Lemma same_seat_set_cards (p : Player.t) cs : same_seat p (Player.set_cards cs p).
Proof. destruct p. reflexivity. Qed.

(** Whatever its outcome, the dealing loop writes cards, hand ranks and
    hand values only. *)
Lemma dealPlayers_same_seats (players : list Player.t) (deck : list Card) :
  Forall2 same_seat players (dealPlayers players deck).2.1.
Proof.
  revert deck. induction players as [|p ps IH]; intros deck; [constructor|].
  cbn [dealPlayers]. destruct (dealHand deck) as [cs deck'].
  destruct (evaluateHand_js cs) as [e|r].
  { cbn. constructor; [apply same_seat_set_cards|].
    apply Forall2_same_length_lookup_2; [reflexivity|].
    intros i x y Hx Hy. rewrite Hx in Hy. injection Hy as <-. apply same_seat_refl. }
  destruct (getHandValue_js cs r) as [e|v].
  { cbn. constructor; [apply same_seat_set_hand|].
    apply Forall2_same_length_lookup_2; [reflexivity|].
    intros i x y Hx Hy. rewrite Hx in Hy. injection Hy as <-. apply same_seat_refl. }
  specialize (IH deck'). destruct (dealPlayers ps deck') as [e [ps' d']].
  cbn in *. constructor; [apply same_seat_set_hand|exact IH].
Qed.

(** With two to seventeen players [startGame] goes through. *)
Lemma startGame_run (rnd : nat -> nat) (s : Run) :
  (2 <= length (Game.players (game s)) <= 17)%nat ->
  exists players' deck',
    startGame rnd s
    = (inr tt,
       mkRun (Game.set_deck deck' (Game.set_players players'
                (Game.set_status active (game s))))
             (set_games (Game.set_deck deck' (Game.set_players players'
                           (Game.set_status active (game s)))) (world s))
             (emitted s)) /\
    Forall2 same_seat (Game.players (game s)) players' /\
    Forall (fun p => exists a b c,
              Player.cards p = [Some a; Some b; Some c] /\
              Player.handRank p = evaluateHand [a; b; c] /\
              Player.handValue p = handValueOf [a; b; c]) players' /\
    length deck' = (52 - 3 * length (Game.players (game s)))%nat.
Proof.
  intros [Hge Hmax]. destruct s as [g w evs]. cbn [game world emitted] in *.
  pose proof (shuffleDeck_Permutation rnd createDeck) as Hperm.
  assert (Hlen : length (shuffleDeck rnd createDeck) = 52%nat).
  { rewrite Hperm. reflexivity. }
  destruct (dealPlayers_enough (Game.players g) (shuffleDeck rnd createDeck))
    as (ps' & dealt & Hdeal & Htop & Hcards & Hl & Hu & Hall); [lia|].
  pose proof (dealPlayers_same_seats (Game.players g) (shuffleDeck rnd createDeck)) as Hsame.
  rewrite Hdeal in Hsame. cbn [fst snd] in Hsame.
  exists ps', (take (length (shuffleDeck rnd createDeck) - 3 * length (Game.players g))
                 (shuffleDeck rnd createDeck)).
  split; [|split; [exact Hsame|split; [exact Hall|]]].
  - unfold startGame, dealCards. run.
    rewrite (proj2 (Nat.ltb_ge _ _) Hge).
    cbn [Game.players Game.deck Game.set_deck Game.set_players Game.set_status].
    rewrite Hdeal. destruct g; reflexivity.
  - rewrite length_take, Hlen. lia.
Qed.

(** X8: [startGame] refuses a table of fewer than two players and changes
    nothing; with two to seventeen players it sets the status to active,
    deals three cards to every player from a fresh shuffled deck, leaves
    the 52 less three per player in the deck, and saves; it writes
    nothing else on the seats, and it does not look at the status the
    game had. *)
Theorem startGame_deals_or_refuses (rnd : nat -> nat) (s : Run) :
  (forall i, rnd i <= i)%nat ->
  (length (Game.players (game s)) <= 17)%nat ->
  ((length (Game.players (game s)) < 2)%nat ->
   startGame rnd s = (inl (Error "Need at least 2 players to start"), s)) /\
  ((2 <= length (Game.players (game s)))%nat ->
   exists players' deck',
     startGame rnd s
     = (inr tt,
        mkRun (Game.set_deck deck' (Game.set_players players'
                 (Game.set_status active (game s))))
              (set_games (Game.set_deck deck' (Game.set_players players'
                            (Game.set_status active (game s)))) (world s))
              (emitted s)) /\
     Forall2 same_seat (Game.players (game s)) players' /\
     Forall (fun p => exists a b c,
               Player.cards p = [Some a; Some b; Some c] /\
               Player.handRank p = evaluateHand [a; b; c] /\
               Player.handValue p = handValueOf [a; b; c]) players' /\
     length deck' = (52 - 3 * length (Game.players (game s)))%nat).
Proof.
  intros _ Hmax. split.
  - intros Hlt. destruct s as [g w evs]. unfold startGame. run.
    cbn [game] in Hlt. rewrite (proj2 (Nat.ltb_lt _ _) Hlt). reflexivity.
  - intros Hge. apply startGame_run. lia.
Qed.

Lemma startGame_deals_or_refuses_witness :
  exists players' deck',
    startGame (fun i => i) (mkRun table_waiting world_waiting [])
    = (inr tt,
       mkRun (Game.set_deck deck' (Game.set_players players'
                (Game.set_status active table_waiting)))
             (set_games (Game.set_deck deck' (Game.set_players players'
                           (Game.set_status active table_waiting))) world_waiting)
             []) /\
    Forall2 same_seat (Game.players table_waiting) players' /\
    Forall (fun p => exists a b c,
              Player.cards p = [Some a; Some b; Some c] /\
              Player.handRank p = evaluateHand [a; b; c] /\
              Player.handValue p = handValueOf [a; b; c]) players' /\
    length deck' = (52 - 3 * 2)%nat.
Proof.
  apply (startGame_deals_or_refuses (fun i => i) (mkRun table_waiting world_waiting [])).
  - intros i. lia.
  - simpl. lia.
  - simpl. lia.
Defined.

Lemma firstShort_run (minBet : Z) (players : list Player.t) (s : Run) :
  (forall p, p ∈ players -> is_Some (users (world s) !! Player.user p)) ->
  exists short,
    firstShort minBet players s = (inr short, s) /\
    (short = None ->
     forall p, p ∈ players ->
               exists c, chipsOf (Player.user p) (world s) = Some c /\ minBet <= c) /\
    (forall r, short = Some r -> r.1 = 400%nat).
Proof.
  destruct s as [g w evs]. cbn [world].
  induction players as [|p ps IH]; intros Hall.
  - exists None. split; [reflexivity|]. split; [|discriminate].
    intros _ p Hp. apply not_elem_of_nil in Hp as [].
  - cbn [firstShort]. run. destruct (Hall p) as [u Hu]; [left|]. rewrite Hu.
    destruct (User.chips u <? minBet) eqn:Hc.
    + eexists. split; [reflexivity|]. split; [discriminate|]. intros r [= <-]. reflexivity.
    + destruct IH as (short & Hrun & Hnone & Hsome).
      { intros q Hq. apply Hall. right. exact Hq. }
      exists short. split; [exact Hrun|]. split; [|exact Hsome].
      intros Hs q Hq. apply elem_of_cons in Hq as [->|Hq]; [|apply Hnone; assumption].
      exists (User.chips u). unfold chipsOf. rewrite Hu. split; [reflexivity|].
      apply Z.ltb_ge. exact Hc.
Qed.

(** X9: the start route answers 200 only to the creator of a waiting game
    of at least two players who each hold [minBet] chips or more, and
    then the stored game is active with three cards on every seat and no
    account touched; every other answer leaves the stores as they were.
    With up to seventeen players whose users exist there is no 500. *)
Theorem start_answers (rnd : nat -> nat) (createdBy : UserId) (w : World)
    (reqUserId : UserId) (gameId : nat) :
  (forall i, rnd i <= i)%nat ->
  (length (Game.players (games w)) <= 17)%nat ->
  (forall p, p ∈ Game.players (games w) -> is_Some (users w !! Player.user p)) ->
  let r := start rnd createdBy w reqUserId gameId in
  (r.2.1 = 200%nat ->
   gameId = Game._id (games w) /\ createdBy = reqUserId /\
   Game.status (games w) = waiting /\
   (2 <= length (Game.players (games w)))%nat /\
   (forall p, p ∈ Game.players (games w) ->
              exists c, chipsOf (Player.user p) w = Some c /\ Game.minBet (games w) <= c) /\
   Game.status (games r.1) = active /\
   users r.1 = users w /\ transactions r.1 = transactions w /\
   Forall2 same_seat (Game.players (games w)) (Game.players (games r.1)) /\
   Forall (fun p => exists a b c,
             Player.cards p = [Some a; Some b; Some c] /\
             Player.handRank p = evaluateHand [a; b; c] /\
             Player.handValue p = handValueOf [a; b; c]) (Game.players (games r.1))) /\
  (r.2.1 <> 200%nat -> r.1 = w) /\
  r.2.1 <> 500%nat.
Proof.
  intros _ Hmax Hall. cbv zeta. unfold start, startBody.
  cbv [mbind M_bind getGame game].
  case_bool_decide as Hid; cbn [negb]; [|cbn; repeat split; try discriminate; lia].
  case_bool_decide as Hcr; cbn [negb]; [|cbn; repeat split; try discriminate; lia].
  case_bool_decide as Hst; cbn [negb]; [|cbn; repeat split; try discriminate; lia].
  destruct (length (Game.players (games w)) <? 2)%nat eqn:Hlen;
    [cbn; repeat split; try discriminate; lia|].
  apply Nat.ltb_ge in Hlen.
  destruct (firstShort_run (Game.minBet (games w)) (Game.players (games w))
              (mkRun (games w) w []) Hall) as (short & -> & Hnone & Hsome).
  destruct short as [resp|].
  { pose proof (Hsome resp eq_refl) as H400. cbn [mret M_ret fst snd world].
    rewrite H400. repeat split; try discriminate; lia. }
  destruct (startGame_run rnd (mkRun (games w) w [])) as (ps' & d' & -> & Hsame & Hcards & _);
    [cbn [game]; lia|].
  cbn [mret M_ret fst snd world game games set_games users transactions emitted
       Game.status Game.players Game.set_deck Game.set_players Game.set_status].
  split; [|split; [intros Hn; exfalso; apply Hn; reflexivity|discriminate]].
  intros _. repeat split; auto.
Qed.

Lemma start_answers_witness :
  (start (fun i => i) alice world_waiting alice table_id).2.1 <> 500%nat.
Proof.
  refine (proj2 (proj2 (start_answers (fun i => i) alice world_waiting alice table_id
                          _ _ _))).
  - intros i. lia.
  - vm_compute. lia.
  - intros q Hq. vm_compute in Hq.
    repeat (apply elem_of_cons in Hq as [->|Hq]; [vm_compute; eexists; reflexivity|]).
    exfalso. exact (not_elem_of_nil _ Hq).
Defined.

Example start_of_the_waiting_table :
  (fun r => (Game.status (games r.1), r.2))
    (start (fun i => i) alice world_waiting alice table_id)
  = (active, (200%nat, "Game started successfully"%string)).
Proof. vm_compute. reflexivity. Qed.

(** ** The checks of a message, the turn and the winner *)

(** X10: the checks before the action is looked at, in their order: the
    game, the seat, the turn, and then the name of the action. Each
    answers with its own message and changes nothing; the status of the
    game is not among them. *)
Theorem handleGameAction_gate (w : World) (userId : UserId) (gameId : nat)
    (action : string) (amount : Z) :
  (gameId <> Game._id (games w) ->
   handleGameAction w userId gameId action amount = (w, [error "Game not found"])) /\
  (gameId = Game._id (games w) ->
   findIndex userId (Game.players (games w)) = None ->
   handleGameAction w userId gameId action amount = (w, [error "You are not in this game"])) /\
  (gameId = Game._id (games w) ->
   forall i, findIndex userId (Game.players (games w)) = Some i ->
   (Game.currentPlayerIndex (games w) <> i ->
    handleGameAction w userId gameId action amount = (w, [error "Not your turn"])) /\
   (Game.currentPlayerIndex (games w) = i -> action ∉ actions ->
    handleGameAction w userId gameId action amount = (w, [error "Invalid action"]))).
Proof.
  unfold handleGameAction, gameAction. run.
  split; [|split].
  - intros Hne. rewrite bool_decide_eq_false_2 by congruence. reflexivity.
  - intros -> Hidx. rewrite bool_decide_eq_true_2 by reflexivity. cbn [negb].
    rewrite Hidx. reflexivity.
  - intros -> i Hidx. rewrite bool_decide_eq_true_2 by reflexivity. cbn [negb].
    rewrite Hidx. split.
    + intros Hturn. rewrite (bool_decide_eq_false_2 _ Hturn). reflexivity.
    + intros Hturn Hact. rewrite (bool_decide_eq_true_2 _ Hturn). cbn [negb].
      unfold actions in Hact.
      repeat (apply not_elem_of_cons in Hact as [? Hact]).
      rewrite !bool_decide_eq_false_2 by assumption. reflexivity.
Qed.



Lemma set_currentPlayerIndex_same (g : Game.t) :
  Game.set_currentPlayerIndex (Game.currentPlayerIndex g) g = g.
Proof. destruct g. reflexivity. Qed.

(** X12: [moveToNextPlayer] always returns: the loop ends on every table.
    It writes [currentPlayerIndex] and nothing else; with two or more
    players in the hand the new index is the first seat after the
    current one whose player is in the hand, and with fewer it is the old
    index. *)
Theorem moveToNextPlayer_total (s : Run) :
  exists j,
    moveToNextPlayer s
    = (inr tt, mkRun (Game.set_currentPlayerIndex j (game s)) (world s) (emitted s)) /\
    ((2 <= length (filter (fun p => Player.inHand p = true) (Game.players (game s))))%nat ->
     next_seat (Game.players (game s)) (Game.currentPlayerIndex (game s)) j) /\
    ((length (filter (fun p => Player.inHand p = true) (Game.players (game s))) <= 1)%nat ->
     j = Game.currentPlayerIndex (game s)).
Proof.
  rewrite moveToNextPlayer_run.
  destruct (le_lt_dec 2 (length (filter (fun p => Player.inHand p = true)
                                   (Game.players (game s))))) as [Hge|Hlt].
  - destruct (advance_next_seat (game s) Hge) as (j & _ & Hadv & Hnext).
    exists j. rewrite Hadv. split; [reflexivity|]. split; [auto|lia].
  - exists (Game.currentPlayerIndex (game s)).
    unfold advance. rewrite (proj2 (Nat.leb_le _ _)) by lia.
    rewrite set_currentPlayerIndex_same. split; [reflexivity|]. split; [lia|auto].
Qed.

(** X13: [determineWinner] gives no winner exactly when nobody is in the
    hand, and a winner it gives is a seated player who has not folded and
    is still playing. *)
Theorem determineWinner_in_hand (g : Game.t) :
  (determineWinner g = None <->
   filter (fun p => Player.inHand p = true) (Game.players g) = []) /\
  (forall w, determineWinner g = Some w ->
             w ∈ Game.players g /\ Player.inHand w = true).
Proof.
  unfold determineWinner.
  set (act := filter (fun p => Player.inHand p = true) (Game.players g)).
  assert (Hfold : forall l w0 w,
            w0 ∈ act -> (forall p, p ∈ l -> p ∈ act) ->
            foldl (fun winner player =>
                     match winner with
                     | Some w =>
                         if num_gt (Player.handValue player) (Player.handValue w)
                         then Some player else winner
                     | None => None
                     end) (Some w0) l = Some w -> w ∈ act).
  { induction l as [|x l IH]; intros w0 w Hw0 Hl; cbn [foldl].
    - intros [= <-]. exact Hw0.
    - destruct (num_gt _ _); apply IH; auto;
        try (intros p Hp; apply Hl; right; exact Hp). apply Hl. left. }
  assert (Hsome : forall l w0, exists w,
            foldl (fun winner player =>
                     match winner with
                     | Some w =>
                         if num_gt (Player.handValue player) (Player.handValue w)
                         then Some player else winner
                     | None => None
                     end) (Some w0) l = Some w).
  { induction l as [|x l IH]; intros w0; cbn [foldl]; [eauto|].
    destruct (num_gt _ _); apply IH. }
  assert (Hact : forall w, w ∈ act -> w ∈ Game.players g /\ Player.inHand w = true).
  { intros w Hw. apply list_elem_of_filter in Hw as [? ?]. auto. }
  destruct act as [|w0 rest] eqn:Hact0.
  - cbn. split; [tauto|discriminate].
  - destruct (length (w0 :: rest) =? 1)%nat.
    + cbn. split; [split; discriminate|]. intros w [= <-]. apply Hact. left.
    + cbn [lookup list_lookup]. split.
      * split; [|discriminate]. intros Hnone.
        destruct (Hsome (w0 :: rest) w0) as [w Hw]. congruence.
      * intros w Hw. apply Hact. eapply Hfold; [|intros p Hp; exact Hp|exact Hw]. left.
Qed.

(** ** What no action changes *)

Lemma same_table_refl (g : Game.t) : same_table g g.
Proof.
  unfold same_table. repeat split; try reflexivity; try lia.
  exists []. rewrite app_nil_r. reflexivity.
Qed.

Lemma same_table_advance (g x : Game.t) : same_table g x -> same_table g (advance x).
Proof.
  intros H. unfold advance. destruct (_ <=? _)%nat; [exact H|].
  destruct (nextActive _ _ _); exact H.
Qed.

Lemma same_table_declare (g x : Game.t) (winner : Player.t) :
  same_table g x -> same_table g (declare winner x).
Proof. intros H. exact H. Qed.

Lemma same_table_history (g x : Game.t) (h : list History.t) (e : History.t) :
  h = Game.gameHistory x ->
  same_table g x -> same_table g (Game.set_gameHistory (h ++ [e]) x).
Proof.
  intros -> (H1 & H2 & H3 & H4 & H5 & H6 & (more & H7) & H8).
  unfold same_table. cbn. repeat split; try assumption.
  exists (more ++ [e]). rewrite H7, app_assoc. reflexivity.
Qed.

Lemma same_table_pot (g x : Game.t) (v : Z) :
  same_table g x -> same_table g (Game.set_pot v x).
Proof. intros H. exact H. Qed.

Lemma same_table_bet (g x : Game.t) (v : Z) :
  (0 <= Game.minBet g -> Game.currentBet x <= v) ->
  same_table g x -> same_table g (Game.set_currentBet v x).
Proof.
  intros Hv (H1 & H2 & H3 & H4 & H5 & H6 & H7 & H8).
  unfold same_table. cbn. repeat split; try assumption.
  intros Hmin. specialize (H8 Hmin). specialize (Hv Hmin). lia.
Qed.

Lemma same_table_update (g x : Game.t) (i : nat) (f : Player.t -> Player.t) :
  (forall q, seatCards (f q) = seatCards q) ->
  same_table g x -> same_table g (Game.update_player i f x).
Proof.
  intros Hf (H1 & H2 & H3 & H4 & H5 & H6 & H7 & H8).
  unfold same_table. cbn. repeat split; try assumption.
  rewrite <- H6. apply list_eq. intros j. rewrite !list_lookup_fmap.
  destruct (decide (i = j)) as [->|Hne].
  - rewrite list_lookup_alter_eq. destruct (Game.players x !! j); cbn; [|reflexivity].
    rewrite Hf. reflexivity.
  - rewrite list_lookup_alter_ne by exact Hne. reflexivity.
Qed.

Ltac table_steps :=
  repeat first
    [ apply same_table_refl
    | apply same_table_advance
    | apply same_table_history; [reflexivity|]
    | apply same_table_pot
    | apply same_table_update; [intros []; reflexivity|] ].


(** ** Chips and bets *)

Lemma chips_moved_refl (id : UserId) (w : World) : chips_moved_to_pot id w w.
Proof. repeat split. Qed.

Lemma chips_moved_game (id : UserId) (w : World) (g : Game.t) :
  Game.pot g = Game.pot (games w) -> chips_moved_to_pot id w (set_games g w).
Proof.
  intros Hpot. unfold chips_moved_to_pot, chipsAndPot, chipsOf.
  cbn [users games set_games transactions]. rewrite Hpot. repeat split.
Qed.

Lemma chips_moved_bet (id : UserId) (w : World) (u : User.t) (c : Z) (g : Game.t) :
  users w !! id = Some u ->
  Game.pot g = Game.pot (games w) + c ->
  chips_moved_to_pot id w
    (set_games g (set_users (<[id := User.set_chips (User.chips u - c) u]> (users w)) w)).
Proof.
  intros Hu Hpot. unfold chips_moved_to_pot, chipsAndPot, chipsOf.
  cbn [users games set_games set_users transactions].
  rewrite lookup_insert_eq, Hu, Hpot. cbn. split; [f_equal; lia|].
  split; [|reflexivity]. intros other Hne. rewrite lookup_insert_ne by congruence.
  reflexivity.
Qed.

Ltac pot_of_advance :=
  match goal with
  | |- Game.pot (advance ?g) = _ => destruct (advance_fields g) as (-> & _)
  end;
  cbn [Game.pot Game.set_gameHistory Game.set_pot Game.set_currentBet
       Game.update_player Game.set_players].



(** X16: on the turn of a seated player with the chips for it, a call
    leaves the player's bet at the table bet, and a raise within the
    limits lifts the table bet by the raise and leaves the player's bet
    at the new table bet; what the player pays, the table bet less the
    own bet and for a raise the raise on top, goes from the account to
    the pot and onto the player's total bet. *)
Theorem call_and_raise_match_the_table_bet (w : World) (userId : UserId) (i : nat)
    (p : Player.t) (u : User.t) (amount : Z) :
  findIndex userId (Game.players (games w)) = Some i ->
  Game.players (games w) !! i = Some p ->
  Game.currentPlayerIndex (games w) = i ->
  users w !! userId = Some u ->
  (toCall (games w) p <= User.chips u ->
   let w' := fst (handleGameAction w userId (Game._id (games w)) "call" amount) in
   exists p',
     Game.players (games w') !! i = Some p' /\
     Player.currentBet p' = Game.currentBet (games w') /\
     Game.currentBet (games w') = Game.currentBet (games w) /\
     Player.totalBet p' = Player.totalBet p + toCall (games w) p /\
     Game.pot (games w') = Game.pot (games w) + toCall (games w) p /\
     chipsOf userId w' = Some (User.chips u - toCall (games w) p)) /\
  (Game.minBet (games w) <= amount <= Game.maxBet (games w) ->
   toCall (games w) p + amount <= User.chips u ->
   let w' := fst (handleGameAction w userId (Game._id (games w)) "raise" amount) in
   exists p',
     Game.players (games w') !! i = Some p' /\
     Player.currentBet p' = Game.currentBet (games w') /\
     Game.currentBet (games w') = Game.currentBet (games w) + amount /\
     Player.totalBet p' = Player.totalBet p + toCall (games w) p + amount /\
     Game.pot (games w') = Game.pot (games w) + toCall (games w) p + amount /\
     chipsOf userId w' = Some (User.chips u - (toCall (games w) p + amount))).
Proof.
  intros Hidx Hp Hturn Hu. unfold toCall.
  destruct (findIndex_Some _ _ _ Hidx) as (p' & Hp' & Hup).
  rewrite Hp in Hp'. injection Hp' as <-. rewrite <- Hup in Hu.
  assert (Hid : Game._id (games w) = Game._id (games w)) by reflexivity.
  split.
  - intros Hchips. cbv zeta. enter_handler Hid Hidx Hturn.
    unfold handleCall. run. rewrite Hp, Hu.
    rewrite (proj2 (Z.ltb_ge _ _)) by lia.
    rewrite updateChips_subtract_run with (u := u)
      by (try exact Hu; apply Z.ltb_ge; cbn; lia).
    run. rewrite moveToNextPlayer_run. run. cbn [fst world games set_games].
    match goal with
    | |- context [advance ?g] => destruct (advance_fields g) as (-> & -> & _ & _ & ->)
    end.
    cbn [Game.pot Game.players Game.currentBet Game.set_gameHistory Game.set_pot
         Game.set_currentBet Game.update_player Game.set_players].
    eexists. split; [rewrite list_lookup_alter_eq, Hp; reflexivity|].
    unfold chipsOf. cbn [users set_users set_games]. rewrite Hup, lookup_insert_eq.
    cbn. repeat split; try lia.
  - intros Hrange Hchips. cbv zeta. enter_handler Hid Hidx Hturn.
    unfold handleRaise. run. rewrite Hp, Hu.
    replace ((amount <? Game.minBet (games w)) || (Game.maxBet (games w) <? amount))
      with false by (symmetry; apply orb_false_iff; split; apply Z.ltb_ge; lia).
    rewrite (proj2 (Z.ltb_ge _ _)) by lia.
    rewrite updateChips_subtract_run with (u := u)
      by (try exact Hu; apply Z.ltb_ge; cbn; lia).
    run. rewrite moveToNextPlayer_run. run. cbn [fst world games set_games].
    match goal with
    | |- context [advance ?g] => destruct (advance_fields g) as (-> & -> & _ & _ & ->)
    end.
    cbn [Game.pot Game.players Game.currentBet Game.set_gameHistory Game.set_pot
         Game.set_currentBet Game.update_player Game.set_players].
    eexists. split; [rewrite list_lookup_alter_eq, Hp; reflexivity|].
    unfold chipsOf. cbn [users set_users set_games]. rewrite Hup, lookup_insert_eq.
    cbn. repeat split; try lia; f_equal; lia.
Qed.

Lemma call_and_raise_match_the_table_bet_witness :
  let w' := fst (handleGameAction world_after_blind bob (Game._id (games world_after_blind))
                   "call" 0) in
  exists p',
    Game.players (games w') !! 1%nat = Some p' /\
    Player.currentBet p' = Game.currentBet (games w') /\
    Game.currentBet (games w') = Game.currentBet (games world_after_blind) /\
    Player.totalBet p'
    = Player.totalBet (seat_of world_after_blind 1)
      + toCall (games world_after_blind) (seat_of world_after_blind 1) /\
    Game.pot (games w')
    = Game.pot (games world_after_blind)
      + toCall (games world_after_blind) (seat_of world_after_blind 1) /\
    chipsOf bob w'
    = Some (User.chips (user_of world_after_blind bob)
            - toCall (games world_after_blind) (seat_of world_after_blind 1)).
Proof.
  refine (proj1 (call_and_raise_match_the_table_bet world_after_blind bob 1%nat
                   (seat_of world_after_blind 1) (user_of world_after_blind bob) 0
                   _ _ _ _) _);
    vm_compute; try reflexivity; congruence.
Defined.

(** X17: the answers of the leave route to a user who is in no game,
    whose game is not the stored one, or who has no seat in the active
    game: the first is a 400 and changes nothing, the other two, a 404
    and a 200, clear the user's current game and write nothing else. *)
Theorem leave_without_a_seat (w : World) (userId : UserId) (u : User.t) :
  users w !! userId = Some u ->
  let released :=
    set_users (<[userId := User.set_currentGameId None u]> (users w)) w in
  (User.currentGameId u = None ->
   leave w userId = (w, (400%nat, "You are not in any game"%string))) /\
  (forall gid, User.currentGameId u = Some gid -> gid <> Game._id (games w) ->
   leave w userId = (released, (404%nat, "Game not found"%string))) /\
  (User.currentGameId u = Some (Game._id (games w)) ->
   Game.status (games w) = active ->
   findIndex userId (Game.players (games w)) = None ->
   leave w userId = (released, (200%nat, "Successfully left game"%string))).
Proof.
  intros Hu released.
  assert (Halter : alter (User.set_currentGameId None) userId (users w)
                   = <[userId := User.set_currentGameId None u]> (users w)).
  { apply map_eq. intros k. destruct (decide (k = userId)) as [->|Hne].
    - rewrite lookup_alter_eq, lookup_insert_eq, Hu. reflexivity.
    - rewrite lookup_alter_ne, lookup_insert_ne by congruence. reflexivity. }
  unfold leave, leaveBody. run. rewrite Hu.
  split; [|split].
  - intros ->. reflexivity.
  - intros gid -> Hne. rewrite bool_decide_eq_false_2 by congruence. cbn [negb].
    rewrite Halter. reflexivity.
  - intros -> Hst Hidx. rewrite bool_decide_eq_true_2 by reflexivity. cbn [negb].
    rewrite (bool_decide_eq_true_2 _ Hst), Hidx. run. rewrite Halter. reflexivity.
Qed.

Lemma leave_without_a_seat_witness :
  leave world_left alice = (world_left, (400%nat, "You are not in any game"%string)).
Proof.
  refine (proj1 (leave_without_a_seat world_left alice (user_of world_left alice) _) _);
    vm_compute; reflexivity.
Defined.

(** X18: without a usable [PLATFORM_COMMISSION_RATE] (unset, zero or not
    a number) the commission on a pot of up to 10000 chips is three
    percent rounded down, with no rounding error of the floating-point
    product; it is never more than the pot, and it and the winnings add
    up to the pot. *)
Theorem commission_at_the_default_rate (w : World) (pot : Z) :
  match PLATFORM_COMMISSION_RATE w with
  | Some r => Number.falsy r = true
  | None => True
  end ->
  0 <= pot <= 10000 ->
  exists commission,
    commissionOf (commissionRate w) pot = Some commission /\
    commission = 3 * pot / 100 /\
    0 <= commission <= pot /\
    (pot - commission) + commission = pot.
Proof.
  intros Henv Hpot. exists (3 * pot / 100).
  assert (Hrate : commissionRate w = Number.lit_0_03).
  { unfold commissionRate. destruct (PLATFORM_COMMISSION_RATE w) as [r|]; [|reflexivity].
    rewrite Henv. reflexivity. }
  rewrite Hrate. split; [apply commission_three_percent; exact Hpot|].
  split; [reflexivity|]. split; [|lia].
  split; [apply Z.div_pos; lia|].
  apply Z.div_le_upper_bound; lia.
Qed.

Lemma commission_at_the_default_rate_witness :
  exists commission,
    commissionOf (commissionRate world_started) 250 = Some commission /\
    commission = 3 * 250 / 100 /\
    0 <= commission <= 250 /\
    (250 - commission) + commission = 250.
Proof.
  apply (commission_at_the_default_rate world_started 250).
  - vm_compute. exact I.
  - lia.
Defined.

(** ** The account and the ledger *)

(** X19: [updateChips(amount, 'subtract')] on an account that is not
    negative: an amount above the balance throws 'Insufficient chips' and
    changes nothing; any other amount is taken off the balance of that
    user and nothing else is written; and in either case the balance
    afterwards is not negative. *)
Theorem updateChips_subtract_all_or_nothing (id : UserId) (amount : Z) (s : Run) (u : User.t) :
  users (world s) !! id = Some u ->
  0 <= User.chips u ->
  (User.chips u < amount ->
   updateChips id amount "subtract" s = (inl (Error "Insufficient chips"), s)) /\
  (amount <= User.chips u ->
   exists s',
     updateChips id amount "subtract" s = (inr tt, s') /\
     users (world s') = <[id := User.set_chips (User.chips u - amount) u]> (users (world s)) /\
     game s' = game s /\ emitted s' = emitted s /\
     games (world s') = games (world s) /\
     transactions (world s') = transactions (world s)) /\
  (forall c, chipsOf id (world (snd (updateChips id amount "subtract" s))) = Some c ->
             0 <= c).
Proof.
  intros Hu Hpos. destruct s as [g w evs]. cbn [game world emitted] in *.
  unfold updateChips.
  rewrite bool_decide_eq_false_2 by discriminate.
  rewrite bool_decide_eq_true_2 by reflexivity.
  run. rewrite Hu.
  split; [|split].
  - intros Hlt. rewrite (proj2 (Z.ltb_lt _ _) Hlt). reflexivity.
  - intros Hle. rewrite (proj2 (Z.ltb_ge _ _) Hle).
    eexists. split; [reflexivity|]. cbn. auto.
  - intros c. destruct (_ <? _) eqn:Hc; cbn [snd world]; unfold chipsOf.
    + rewrite Hu. intros [= <-]. exact Hpos.
    + cbn [users set_users]. rewrite lookup_insert_eq. intros [= <-].
      apply Z.ltb_ge in Hc. cbn. lia.
Qed.

Lemma updateChips_subtract_all_or_nothing_witness :
  updateChips alice 500 "subtract" (mkRun table_waiting world_waiting [])
  = (inl (Error "Insufficient chips"), mkRun table_waiting world_waiting []).
Proof.
  refine (proj1 (updateChips_subtract_all_or_nothing alice 500
                   (mkRun table_waiting world_waiting [])
                   (user_of world_waiting alice) _ _) _);
    vm_compute; congruence.
Defined.



Lemma createTransaction_run (type : string) (to : UserId) (amount : Z)
    (gameId : option nat) (s : Run) :
  createTransaction type to amount gameId s
  = match users (world s) !! to with
    | None => (inl (Error "Recipient not found"), s)
    | Some recipient =>
        if decide ((type ∉ credit_types) /\ (type ∈ debit_types) /\
                   User.chips recipient - amount < 0)
        then (inl (Error "Insufficient balance"), s)
        else (inr tt, booked_run type to amount gameId recipient s)
    end.
Proof.
  destruct s as [g w evs]. unfold createTransaction, booked_run, booked. run.
  destruct (users w !! to) as [r|] eqn:Hr; [|reflexivity].
  assert (Halter : forall b, alter (User.set_chips b) to (users w)
                             = <[to := User.set_chips b r]> (users w)).
  { intros b. apply map_eq. intros k. destruct (decide (k = to)) as [->|Hne].
    - rewrite lookup_alter_eq, lookup_insert_eq, Hr. reflexivity.
    - rewrite lookup_alter_ne, lookup_insert_ne by congruence. reflexivity. }
  case_bool_decide as Hc.
  - rewrite decide_False by tauto. rewrite (decide_True _ _ Hc).
    cbn [set_users set_transactions users transactions]. rewrite Halter. reflexivity.
  - case_bool_decide as Hd.
    + destruct (_ <? 0) eqn:Hneg.
      * apply Z.ltb_lt in Hneg. rewrite decide_True by auto. reflexivity.
      * apply Z.ltb_ge in Hneg. rewrite decide_False by lia.
        rewrite (decide_False _ _ Hc), (decide_True _ _ Hd).
        cbn [set_users set_transactions users transactions]. rewrite Halter. reflexivity.
    + rewrite decide_False by tauto.
      rewrite (decide_False _ _ Hc), (decide_False _ _ Hd).
      cbn [set_users set_transactions users transactions]. rewrite Halter. reflexivity.
Qed.

Lemma credit_or_debit (type : string) : type ∈ credit_types -> type ∈ debit_types -> False.
Proof.
  unfold credit_types, debit_types. intros Hc Hd.
  repeat (apply elem_of_cons in Hc as [->|Hc]);
    try (apply not_elem_of_nil in Hc as []);
    repeat (apply elem_of_cons in Hd as [Hd|Hd]); try discriminate Hd;
    apply not_elem_of_nil in Hd as [].
Qed.


Lemma transfer_types :
  ("transfer_send"%string ∉ credit_types) /\ ("transfer_send"%string ∈ debit_types) /\
  ("transfer_receive"%string ∈ credit_types) /\
  ("admin_add"%string ∈ credit_types) /\
  ("admin_deduct"%string ∉ credit_types) /\ ("admin_deduct"%string ∈ debit_types).
Proof. repeat split; by_evaluation. Qed.

Lemma booked_send (before amount : Z) : booked "transfer_send" before amount = before - amount.
Proof.
  unfold booked. destruct transfer_types as (H1 & H2 & _).
  rewrite (decide_False _ _ H1), (decide_True _ _ H2). reflexivity.
Qed.

Lemma booked_receive (before amount : Z) :
  booked "transfer_receive" before amount = before + amount.
Proof.
  unfold booked. destruct transfer_types as (_ & _ & H3 & _).
  rewrite (decide_True _ _ H3). reflexivity.
Qed.

Lemma booked_admin_add (before amount : Z) : booked "admin_add" before amount = before + amount.
Proof.
  unfold booked. destruct transfer_types as (_ & _ & _ & H4 & _).
  rewrite (decide_True _ _ H4). reflexivity.
Qed.

Lemma booked_admin_deduct (before amount : Z) :
  booked "admin_deduct" before amount = before - amount.
Proof.
  unfold booked. destruct transfer_types as (_ & _ & _ & _ & H5 & H6).
  rewrite (decide_False _ _ H5), (decide_True _ _ H6). reflexivity.
Qed.

Lemma send_run (fromUserId : UserId) (amount : Z) (sender : User.t) (s : Run) :
  users (world s) !! fromUserId = Some sender ->
  amount <= User.chips sender ->
  createTransaction "transfer_send" fromUserId amount None s
  = (inr tt, booked_run "transfer_send" fromUserId amount None sender s).
Proof.
  intros Hs Hle. rewrite createTransaction_run, Hs.
  rewrite decide_False by lia. reflexivity.
Qed.

Lemma receive_run (toUserId : UserId) (amount : Z) (recipient : User.t) (s : Run) :
  users (world s) !! toUserId = Some recipient ->
  createTransaction "transfer_receive" toUserId amount None s
  = (inr tt, booked_run "transfer_receive" toUserId amount None recipient s).
Proof.
  intros Hr. rewrite createTransaction_run, Hr.
  destruct transfer_types as (_ & _ & H3 & _).
  rewrite decide_False by tauto. reflexivity.
Qed.

(** X22: a transfer between two different users moves [amount] chips:
    the sender's balance falls by it and stays at zero or above, the
    recipient's rises by it, nobody else's changes, and the ledger grows
    by the send record and the receive record, in this order. *)
Theorem createTransferTransaction_moves_chips (fromUserId toUserId : UserId) (amount : Z)
    (sender recipient : User.t) (s : Run) :
  fromUserId <> toUserId ->
  users (world s) !! fromUserId = Some sender ->
  users (world s) !! toUserId = Some recipient ->
  0 <= amount <= User.chips sender ->
  exists s',
    createTransferTransaction fromUserId toUserId amount s = (inr tt, s') /\
    users (world s')
    = <[toUserId := User.set_chips (User.chips recipient + amount) recipient]>
        (<[fromUserId := User.set_chips (User.chips sender - amount) sender]>
           (users (world s))) /\
    chipsOf fromUserId (world s') = Some (User.chips sender - amount) /\
    chipsOf toUserId (world s') = Some (User.chips recipient + amount) /\
    0 <= User.chips sender - amount /\
    transactions (world s')
    = transactions (world s)
      ++ [Transaction.mk "transfer_send" (Some fromUserId) amount
            (User.chips sender) (User.chips sender - amount) None;
          Transaction.mk "transfer_receive" (Some toUserId) amount
            (User.chips recipient) (User.chips recipient + amount) None] /\
    game s' = game s /\ games (world s') = games (world s) /\ emitted s' = emitted s.
Proof.
  intros Hne Hs Hr Hamt. destruct s as [g w evs]. cbn [game world emitted] in *.
  unfold createTransferTransaction.
  cbv [mbind M_bind getWorld world]. rewrite Hs.
  rewrite (proj2 (Z.ltb_ge _ _)) by lia.
  rewrite (send_run _ _ sender); [|exact Hs|lia].
  rewrite (receive_run _ _ recipient);
    [|cbn; rewrite lookup_insert_ne by exact Hne; exact Hr].
  eexists. split; [reflexivity|].
  unfold booked_run, chipsOf. rewrite booked_send, booked_receive.
  cbn [game world emitted users transactions games set_users set_transactions].
  rewrite lookup_insert_eq.
  rewrite lookup_insert_ne, lookup_insert_eq by congruence.
  rewrite <- app_assoc. cbn. repeat split; lia.
Qed.

Lemma createTransferTransaction_moves_chips_witness :
  exists s',
    createTransferTransaction alice bob 30 (mkRun table_waiting world_waiting [])
    = (inr tt, s') /\
    users (world s')
    = <[bob := User.set_chips (User.chips (user_of world_waiting bob) + 30)
                 (user_of world_waiting bob)]>
        (<[alice := User.set_chips (User.chips (user_of world_waiting alice) - 30)
                      (user_of world_waiting alice)]>
           (users world_waiting)) /\
    chipsOf alice (world s') = Some (User.chips (user_of world_waiting alice) - 30) /\
    chipsOf bob (world s') = Some (User.chips (user_of world_waiting bob) + 30) /\
    0 <= User.chips (user_of world_waiting alice) - 30 /\
    transactions (world s')
    = transactions world_waiting
      ++ [Transaction.mk "transfer_send" (Some alice) 30
            (User.chips (user_of world_waiting alice))
            (User.chips (user_of world_waiting alice) - 30) None;
          Transaction.mk "transfer_receive" (Some bob) 30
            (User.chips (user_of world_waiting bob))
            (User.chips (user_of world_waiting bob) + 30) None] /\
    game s' = table_waiting /\ games (world s') = games world_waiting /\ emitted s' = [].
Proof.
  apply (createTransferTransaction_moves_chips alice bob 30
           (user_of world_waiting alice) (user_of world_waiting bob)
           (mkRun table_waiting world_waiting [])).
  - discriminate.
  - vm_compute. reflexivity.
  - vm_compute. reflexivity.
  - vm_compute. split; congruence.
Defined.

(** X23: a transfer the sender cannot cover, or whose sender does not
    exist, is refused with 'Insufficient balance' and changes
    nothing. *)
Theorem createTransferTransaction_refuses (fromUserId toUserId : UserId) (amount : Z)
    (s : Run) :
  (forall sender, users (world s) !! fromUserId = Some sender ->
                  User.chips sender < amount) ->
  createTransferTransaction fromUserId toUserId amount s
  = (inl (Error "Insufficient balance"), s).
Proof.
  intros Hshort. destruct s as [g w evs]. cbn [world] in *.
  unfold createTransferTransaction. cbv [mbind M_bind getWorld world].
  destruct (users w !! fromUserId) as [sender|]; [|reflexivity].
  rewrite (proj2 (Z.ltb_lt _ _) (Hshort sender eq_refl)). reflexivity.
Qed.

Lemma createTransferTransaction_refuses_witness :
  createTransferTransaction alice bob 101 (mkRun table_waiting world_waiting [])
  = (inl (Error "Insufficient balance"), mkRun table_waiting world_waiting []).
Proof.
  apply createTransferTransaction_refuses.
  intros sender Hs. vm_compute in Hs. injection Hs as <-. vm_compute. reflexivity.
Defined.

(** X24: the recipient is looked up only after the sender has been
    debited: a transfer to a user that does not exist throws 'Recipient
    not found' and leaves the sender [amount] chips short, with the send
    record in the ledger. *)
Theorem createTransferTransaction_missing_recipient (fromUserId toUserId : UserId)
    (amount : Z) (sender : User.t) (s : Run) :
  users (world s) !! fromUserId = Some sender ->
  users (world s) !! toUserId = None ->
  0 <= amount <= User.chips sender ->
  exists s',
    createTransferTransaction fromUserId toUserId amount s
    = (inl (Error "Recipient not found"), s') /\
    chipsOf fromUserId (world s') = Some (User.chips sender - amount) /\
    transactions (world s')
    = transactions (world s)
      ++ [Transaction.mk "transfer_send" (Some fromUserId) amount
            (User.chips sender) (User.chips sender - amount) None].
Proof.
  intros Hs Hr Hamt. destruct s as [g w evs]. cbn [game world emitted] in *.
  assert (Hne : fromUserId <> toUserId) by congruence.
  unfold createTransferTransaction.
  cbv [mbind M_bind getWorld world]. rewrite Hs.
  rewrite (proj2 (Z.ltb_ge _ _)) by lia.
  rewrite (send_run _ _ sender); [|exact Hs|lia].
  rewrite createTransaction_run.
  unfold booked_run at 1. cbn [world users set_users set_transactions].
  rewrite lookup_insert_ne by exact Hne. rewrite Hr.
  eexists. split; [reflexivity|].
  unfold booked_run, chipsOf. rewrite booked_send.
  cbn [world users transactions set_users set_transactions].
  rewrite lookup_insert_eq. split; reflexivity.
Qed.

Lemma createTransferTransaction_missing_recipient_witness :
  exists s',
    createTransferTransaction alice 3%nat 30 (mkRun table_waiting world_waiting [])
    = (inl (Error "Recipient not found"), s') /\
    chipsOf alice (world s') = Some (User.chips (user_of world_waiting alice) - 30) /\
    transactions (world s')
    = transactions world_waiting
      ++ [Transaction.mk "transfer_send" (Some alice) 30
            (User.chips (user_of world_waiting alice))
            (User.chips (user_of world_waiting alice) - 30) None].
Proof.
  apply (createTransferTransaction_missing_recipient alice 3%nat 30
           (user_of world_waiting alice) (mkRun table_waiting world_waiting [])).
  - vm_compute. reflexivity.
  - vm_compute. reflexivity.
  - vm_compute. split; congruence.
Defined.

Lemma admin_type_cases (type : string) :
  type ∈ ["admin_add"; "admin_deduct"]%string ->
  type = "admin_add"%string \/ type = "admin_deduct"%string.
Proof.
  intros H. apply elem_of_cons in H as [->|H]; [auto|].
  apply elem_of_cons in H as [->|H]; [auto|]. apply not_elem_of_nil in H as [].
Qed.


Lemma deductChips_cases (w : World) (adminId userId : UserId) (amount : Z) :
  deductChips w adminId userId amount
  = if amount <? 1 then (w, ((400%nat, "Validation failed"%string), None))
    else match users w !! userId with
         | None => (w, ((404%nat, "User not found"%string), None))
         | Some u =>
             if User.chips u <? amount
             then (w, ((400%nat, "User has insufficient chips"%string), None))
             else
               (set_transactions
                  (transactions w
                   ++ [Transaction.mk "admin_deduct" (Some userId) amount (User.chips u)
                         (User.chips u - amount) None])
                  (set_users (<[userId := User.set_chips (User.chips u - amount) u]>
                                (users w)) w),
                ((200%nat, "Chips deducted successfully"%string),
                 Some (User.chips u - amount)))
         end.
Proof.
  unfold deductChips, deductChipsBody.
  destruct (amount <? 1) eqn:Hval; [reflexivity|].
  cbv [mbind M_bind getWorld world].
  destruct (users w !! userId) as [u|] eqn:Hu; [|reflexivity].
  destruct (User.chips u <? amount) eqn:Hc; [reflexivity|].
  apply Z.ltb_ge in Hc.
  unfold createAdminTransaction.
  rewrite bool_decide_eq_true_2 by by_evaluation. cbn [negb].
  rewrite createTransaction_run. cbn [world]. rewrite Hu.
  rewrite decide_False by lia.
  unfold booked_run.
  replace (booked "admin_deduct" (User.chips u) amount) with (User.chips u - amount)
    by (symmetry; apply booked_admin_deduct).
  reflexivity.
Qed.

Lemma addChips_cases (w : World) (adminId userId : UserId) (amount : Z) :
  addChips w adminId userId amount
  = if amount <? 1 then (w, ((400%nat, "Validation failed"%string), None))
    else match users w !! userId with
         | None => (w, ((404%nat, "User not found"%string), None))
         | Some u =>
             (set_transactions
                (transactions w
                 ++ [Transaction.mk "admin_add" (Some userId) amount (User.chips u)
                       (User.chips u + amount) None])
                (set_users (<[userId := User.set_chips (User.chips u + amount) u]>
                              (users w)) w),
              ((200%nat, "Chips added successfully"%string),
               Some (User.chips u + amount)))
         end.
Proof.
  unfold addChips, addChipsBody.
  destruct (amount <? 1) eqn:Hval; [reflexivity|].
  cbv [mbind M_bind getWorld world].
  destruct (users w !! userId) as [u|] eqn:Hu; [|reflexivity].
  unfold createAdminTransaction.
  rewrite bool_decide_eq_true_2 by by_evaluation. cbn [negb].
  rewrite createTransaction_run. cbn [world]. rewrite Hu.
  destruct transfer_types as (_ & _ & _ & H4 & _).
  rewrite decide_False by tauto.
  unfold booked_run.
  replace (booked "admin_add" (User.chips u) amount) with (User.chips u + amount)
    by (symmetry; apply booked_admin_add).
  reflexivity.
Qed.

Ltac not_200 := cbn; repeat split; try discriminate; try lia.

(** X26: the deduct route answers 200 only for an existing user whose
    chips cover the amount; the balance it reports is the balance
    stored, the ledger gets one admin_deduct record, and nobody else's
    account changes. Every other answer leaves the stores as they were,
    and the check of the route keeps the transaction from failing: there
    is no 500. *)
Theorem deductChips_reports_the_stored_balance (w : World) (adminId userId : UserId)
    (amount : Z) :
  let r := deductChips w adminId userId amount in
  (r.2.1.1 = 200%nat ->
   exists u,
     users w !! userId = Some u /\ 1 <= amount <= User.chips u /\
     r.2.2 = Some (User.chips u - amount) /\
     chipsOf userId r.1 = r.2.2 /\
     transactions r.1
     = transactions w
       ++ [Transaction.mk "admin_deduct" (Some userId) amount (User.chips u)
             (User.chips u - amount) None] /\
     (forall id, id <> userId -> users r.1 !! id = users w !! id)) /\
  (r.2.1.1 <> 200%nat -> r.1 = w /\ r.2.2 = None) /\
  r.2.1.1 <> 500%nat.
Proof.
  cbv zeta. rewrite deductChips_cases.
  destruct (amount <? 1) eqn:Hval; [not_200|]. apply Z.ltb_ge in Hval.
  destruct (users w !! userId) as [u|] eqn:Hu; [|not_200].
  destruct (User.chips u <? amount) eqn:Hc; [not_200|]. apply Z.ltb_ge in Hc.
  cbn [fst snd].
  split; [|split; [intros Hn; exfalso; apply Hn; reflexivity|discriminate]].
  intros _. exists u. split; [reflexivity|]. split; [lia|]. split; [reflexivity|].
  unfold chipsOf. cbn [users set_users set_transactions transactions].
  rewrite lookup_insert_eq. split; [reflexivity|]. split; [reflexivity|].
  intros id Hne. rewrite lookup_insert_ne by congruence. reflexivity.
Qed.

(** X27: the add route answers 200 for every existing user and an amount
    of at least 1; the balance it reports is the balance stored, the
    ledger gets one admin_add record, and nobody else's account changes.
    Every other answer leaves the stores as they were, and there is no
    500. *)
Theorem addChips_reports_the_stored_balance (w : World) (adminId userId : UserId)
    (amount : Z) :
  let r := addChips w adminId userId amount in
  (r.2.1.1 = 200%nat ->
   exists u,
     users w !! userId = Some u /\ 1 <= amount /\
     r.2.2 = Some (User.chips u + amount) /\
     chipsOf userId r.1 = r.2.2 /\
     transactions r.1
     = transactions w
       ++ [Transaction.mk "admin_add" (Some userId) amount (User.chips u)
             (User.chips u + amount) None] /\
     (forall id, id <> userId -> users r.1 !! id = users w !! id)) /\
  (r.2.1.1 <> 200%nat -> r.1 = w /\ r.2.2 = None) /\
  r.2.1.1 <> 500%nat.
Proof.
  cbv zeta. rewrite addChips_cases.
  destruct (amount <? 1) eqn:Hval; [not_200|]. apply Z.ltb_ge in Hval.
  destruct (users w !! userId) as [u|] eqn:Hu; [|not_200].
  cbn [fst snd].
  split; [|split; [intros Hn; exfalso; apply Hn; reflexivity|discriminate]].
  intros _. exists u. split; [reflexivity|]. split; [lia|]. split; [reflexivity|].
  unfold chipsOf. cbn [users set_users set_transactions transactions].
  rewrite lookup_insert_eq. split; [reflexivity|]. split; [reflexivity|].
  intros id Hne. rewrite lookup_insert_ne by congruence. reflexivity.
Qed.

(** ** The end of the round *)

#[local] Instance stays_released_preorder (id : UserId) : PreOrder (stays_released id).
Proof. split; [intros s H; exact H|intros s1 s2 s3 H1 H2 H; auto]. Qed.

#[local] Instance still_there_preorder (id : UserId) : PreOrder (still_there id).
Proof. split; [intros s H; exact H|intros s1 s2 s3 H1 H2 H; auto]. Qed.

Lemma Promise_all_snd_cons {A} (body : A -> M unit) (x : A) (xs : list A) (s : Run) :
  snd (Promise_all body (x :: xs) s) = snd (Promise_all body xs (snd (body x s))).
Proof. cbn [Promise_all]. destruct (body x s) as [[e|a] s']; reflexivity. Qed.

Lemma statsBody_run (winner p : Player.t) (s : Run) (u : User.t) :
  users (world s) !! Player.user p = Some u ->
  statsBody winner p s
  = (inr tt,
     mkRun (game s)
       (set_users
          (<[Player.user p :=
               User.mk (User.username u) (User.chips u) (User.gamesWon u)
                 (User.gamesPlayed u + 1) (User.totalChipsWon u)
                 (if bool_decide (Player.user p ≠ Player.user winner)
                  then User.totalChipsLost u + Player.totalBet p
                  else User.totalChipsLost u)
                 None]> (users (world s)))
          (world s))
       (emitted s)).
Proof.
  intros Hu. destruct s as [g w evs]. unfold statsBody. run.
  cbn [world] in Hu. rewrite Hu. reflexivity.
Qed.

Lemma stays_released_statsBody (id : UserId) (winner p : Player.t) :
  respects (stays_released id) (statsBody winner p).
Proof.
  intros s Hrel. destruct (users (world s) !! Player.user p) as [u|] eqn:Hu.
  - rewrite (statsBody_run _ _ _ u Hu). cbn [snd world]. unfold released in *.
    cbn [users set_users]. destruct (decide (id = Player.user p)) as [->|Hne].
    + rewrite lookup_insert_eq. reflexivity.
    + rewrite lookup_insert_ne by congruence. exact Hrel.
  - destruct s as [g w evs]. unfold statsBody. run. cbn [world] in Hu. rewrite Hu.
    exact Hrel.
Qed.

Lemma still_there_statsBody (id : UserId) (winner p : Player.t) :
  respects (still_there id) (statsBody winner p).
Proof.
  intros s Hex. destruct (users (world s) !! Player.user p) as [u|] eqn:Hu.
  - rewrite (statsBody_run _ _ _ u Hu). cbn [snd world users set_users].
    destruct (decide (id = Player.user p)) as [->|Hne].
    + rewrite lookup_insert_eq. eauto.
    + rewrite lookup_insert_ne by congruence. exact Hex.
  - destruct s as [g w evs]. unfold statsBody. run. cbn [world] in Hu. rewrite Hu.
    exact Hex.
Qed.

(** After the statistics loop every player whose user exists is
    released. *)
Lemma stats_loop_releases (winner : Player.t) (players : list Player.t) (s : Run)
    (p : Player.t) :
  p ∈ players ->
  is_Some (users (world s) !! Player.user p) ->
  released (Player.user p) (world (snd (Promise_all (statsBody winner) players s))).
Proof.
  revert s. induction players as [|x xs IH]; intros s Hin Hex.
  - apply not_elem_of_nil in Hin as [].
  - rewrite Promise_all_snd_cons.
    apply elem_of_cons in Hin as [->|Hin].
    + apply (respects_Promise_all (R := stays_released (Player.user x)));
        [intros q; apply stays_released_statsBody|].
      destruct Hex as [u Hu]. rewrite (statsBody_run _ _ _ u Hu).
      cbn [snd world]. unfold released. cbn [users set_users].
      rewrite lookup_insert_eq. reflexivity.
    + apply IH; [exact Hin|]. apply still_there_statsBody. exact Hex.
Qed.

Lemma game_loss_is_debit :
  ("game_loss"%string ∉ credit_types) /\ ("game_loss"%string ∈ debit_types).
Proof. split; by_evaluation. Qed.

Lemma booked_loss (before amount : Z) : booked "game_loss" before amount = before - amount.
Proof.
  unfold booked. destruct game_loss_is_debit as [H1 H2].
  rewrite (decide_False _ _ H1), (decide_True _ _ H2). reflexivity.
Qed.

Lemma lossBody_run (winner : Player.t) (gameId : nat) (p : Player.t) (s : Run) :
  lossBody winner gameId p s
  = if bool_decide (Player.user p ≠ Player.user winner) && (0 <? Player.totalBet p) then
      match users (world s) !! Player.user p with
      | None => (inl (Error "Recipient not found"), s)
      | Some r =>
          if decide (User.chips r - Player.totalBet p < 0)
          then (inl (Error "Insufficient balance"), s)
          else (inr tt, booked_run "game_loss" (Player.user p) (Player.totalBet p)
                          (Some gameId) r s)
      end
    else (inr tt, s).
Proof.
  unfold lossBody. destruct (_ && _); [|reflexivity].
  unfold createGameLossTransaction. rewrite createTransaction_run.
  destruct (users (world s) !! Player.user p) as [r|]; [|reflexivity].
  destruct game_loss_is_debit as [H1 H2].
  destruct (decide (User.chips r - Player.totalBet p < 0)).
  - rewrite decide_True by auto. reflexivity.
  - rewrite decide_False by tauto. reflexivity.
Qed.

Lemma same_games_lossBody (winner : Player.t) (gameId : nat) (p : Player.t) :
  respects same_games (lossBody winner gameId p).
Proof. unfold lossBody. respects_games. Qed.

Lemma stays_released_lossBody (id : UserId) (winner : Player.t) (gameId : nat)
    (p : Player.t) :
  respects (stays_released id) (lossBody winner gameId p).
Proof.
  intros s Hrel. rewrite lossBody_run.
  destruct (_ && _); [|exact Hrel].
  destruct (users (world s) !! Player.user p) as [r|] eqn:Hr; [|exact Hrel].
  destruct (decide _); [exact Hrel|].
  cbn [snd]. unfold booked_run, released in *. cbn [world users set_users set_transactions].
  destruct (decide (id = Player.user p)) as [->|Hne].
  - rewrite lookup_insert_eq. rewrite Hr in Hrel. exact Hrel.
  - rewrite lookup_insert_ne by congruence. exact Hrel.
Qed.

(** One loser whose balance is below the total bet makes the loss loop
    throw. *)
Lemma loss_loop_throws (winner : Player.t) (gameId : nat) (players : list Player.t)
    (q : Player.t) :
  Player.user q <> Player.user winner ->
  0 < Player.totalBet q ->
  forall (s : Run) (cq : Z),
    q ∈ players ->
    chipsOf (Player.user q) (world s) = Some cq ->
    cq < Player.totalBet q ->
    exists e, fst (Promise_all (lossBody winner gameId) players s) = inl e.
Proof.
  intros Hq Hbet. induction players as [|x xs IH]; intros s cq Hin Hcq Hlt.
  - apply not_elem_of_nil in Hin as [].
  - cbn [Promise_all]. rewrite lossBody_run.
    unfold chipsOf in Hcq.
    destruct (users (world s) !! Player.user q) as [uq|] eqn:Huq; [|discriminate].
    injection Hcq as Hcq.
    destruct (bool_decide (Player.user x ≠ Player.user winner) && (0 <? Player.totalBet x))
      eqn:Hcond.
    + apply andb_true_iff in Hcond as [_ Hpos]. apply Z.ltb_lt in Hpos.
      destruct (users (world s) !! Player.user x) as [r|] eqn:Hr; [|eauto].
      destruct (decide _) as [Hneg|Hok]; [eauto|].
      apply elem_of_cons in Hin as [->|Hin].
      { exfalso. rewrite Huq in Hr. injection Hr as <-. lia. }
      apply (IH _ (if decide (Player.user q = Player.user x)
                   then User.chips r - Player.totalBet x else cq)); [exact Hin| |].
      * unfold chipsOf, booked_run. cbn [world users set_users set_transactions].
        destruct (decide (Player.user q = Player.user x)) as [Heq|Hne].
        -- rewrite Heq, lookup_insert_eq, booked_loss. reflexivity.
        -- rewrite lookup_insert_ne by congruence. rewrite Huq. cbn. congruence.
      * destruct (decide (Player.user q = Player.user x)) as [Heq|Hne]; [|exact Hlt].
        rewrite Heq, Hr in Huq. injection Huq as <-. lia.
    + apply elem_of_cons in Hin as [->|Hin].
      { exfalso. rewrite (bool_decide_eq_true_2 _ Hq) in Hcond.
        rewrite (proj2 (Z.ltb_lt _ _) Hbet) in Hcond. discriminate. }
      apply (IH s cq); [exact Hin| |exact Hlt].
      unfold chipsOf. rewrite Huq. cbn. congruence.
Qed.

(** When the users are all different and every loser covers the total
    bet, the loss loop goes through. *)
Lemma loss_loop_succeeds (winner : Player.t) (gameId : nat) (players : list Player.t) :
  NoDup (Player.user <$> players) ->
  forall s : Run,
    (forall p, p ∈ players -> Player.user p <> Player.user winner ->
               0 < Player.totalBet p ->
               exists c, chipsOf (Player.user p) (world s) = Some c /\
                         Player.totalBet p <= c) ->
    fst (Promise_all (lossBody winner gameId) players s) = inr tt.
Proof.
  induction players as [|x xs IH]; intros Hnd s Hcov; [reflexivity|].
  rewrite fmap_cons in Hnd. apply NoDup_cons in Hnd as [Hx Hnd].
  cbn [Promise_all]. rewrite lossBody_run.
  destruct (bool_decide (Player.user x ≠ Player.user winner) && (0 <? Player.totalBet x))
    eqn:Hcond.
  - apply andb_true_iff in Hcond as [Hne Hpos].
    apply bool_decide_eq_true_1 in Hne. apply Z.ltb_lt in Hpos.
    destruct (Hcov x) as (c & Hc & Hle); [left|exact Hne|exact Hpos|].
    unfold chipsOf in Hc.
    destruct (users (world s) !! Player.user x) as [r|] eqn:Hr; [|discriminate].
    injection Hc as Hc. rewrite decide_False by lia.
    apply IH; [exact Hnd|].
    intros p Hp Hpw Hpb. destruct (Hcov p) as (c' & Hc' & Hle'); [right; exact Hp|auto..|].
    exists c'. split; [|exact Hle'].
    unfold chipsOf, booked_run. cbn [world users set_users set_transactions].
    rewrite lookup_insert_ne; [exact Hc'|].
    intros Heq. apply Hx. rewrite Heq. apply list_elem_of_fmap. eauto.
  - apply IH; [exact Hnd|]. intros p Hp. apply Hcov. right. exact Hp.
Qed.

Lemma endGame_walk (winner : Player.t) (s : Run) (u : User.t) (commission : Z) :
  users (world s) !! Player.user winner = Some u ->
  commissionOf (commissionRate (world s)) (Game.pot (game s)) = Some commission ->
  (forall p, p ∈ Game.players (game s) -> is_Some (users (world s) !! Player.user p)) ->
  exists s5,
    endGame winner s
    = (inr tt,
       match Promise_all (lossBody winner (Game._id (game s))) (Game.players (game s)) s5 with
       | (inr _, s6) => mkRun (game s6) (set_games (game s6) (world s6)) (emitted s6)
       | (inl _, s6) => s6
       end) /\
    game s5 = declare winner (game s) /\
    emitted s5 = emitted s /\
    games (world s5) = games (world s) /\
    (forall id, id <> Player.user winner ->
                chipsOf id (world s5) = chipsOf id (world s)) /\
    (forall p, p ∈ Game.players (game s) -> released (Player.user p) (world s5)).
Proof.
  intros Hu Hc Hall.
  destruct s as [g w evs]. cbn [game world emitted] in *.
  unfold endGame, try_catch. run.
  cbn [Game.pot Game.set_winningHand Game.set_winner Game.set_status].
  rewrite Hc.
  rewrite updateChips_add_run with (u := u) by assumption.
  run. cbn [users set_users]. rewrite lookup_insert_eq.
  cbn [Game.players Game.set_winningHand Game.set_winner Game.set_status].
  match goal with
  | |- context [Promise_all _ ?ps ?s2] =>
      destruct (stats_loop winner ps s2) as (s3 & Hrun & Hs3);
      [|assert (Hrel : forall p, p ∈ ps -> released (Player.user p) (world s3))]
  end.
  { intros p Hp. cbn [world users set_users] in *.
    destruct (decide (Player.user p = Player.user winner)) as [->|Hne].
    - rewrite lookup_insert_eq. eauto.
    - rewrite !lookup_insert_ne by congruence. apply Hall. assumption. }
  { intros p Hp.
    match type of Hrun with
    | Promise_all _ ?ps ?s2 = _ =>
        pose proof (stats_loop_releases winner ps s2 p Hp) as Hp3;
        assert (Hrun' : Promise_all (statsBody winner) ps s2 = (inr tt, s3)) by exact Hrun
    end.
    rewrite Hrun' in Hp3. apply Hp3. cbn [world users set_users].
    destruct (decide (Player.user p = Player.user winner)) as [->|Hne].
    - rewrite lookup_insert_eq. eauto.
    - rewrite !lookup_insert_ne by congruence. apply Hall. assumption. }
  run_in Hrun. rewrite Hrun. clear Hrun.
  destruct Hs3 as (Hg3 & He3 & Hgs3 & Ht3 & _ & Hch3).
  cbn [game world emitted games transactions set_users] in Hg3, He3, Hgs3, Ht3.
  destruct s3 as [g3 w3 evs3]. cbn [game world emitted] in *. subst g3 evs3.
  assert (Hu3 : exists u3, users w3 !! Player.user winner = Some u3).
  { specialize (Hch3 (Player.user winner)). unfold chipsOf in Hch3.
    cbn [world users set_users] in Hch3. rewrite lookup_insert_eq in Hch3.
    destruct (users w3 !! Player.user winner) as [u3|]; [eauto|discriminate]. }
  destruct Hu3 as [u3 Hu3].
  unfold createGameWinTransaction. rewrite createTransaction_run.
  cbn [world]. rewrite Hu3.
  rewrite decide_False by (intros [Hcr _]; apply Hcr; apply game_win_is_credit).
  unfold createCommissionTransaction. run.
  unfold booked_run.
  cbn [game world emitted Game._id Game.set_winningHand Game.set_winner Game.set_status].
  match goal with
  | |- context [Promise_all ?body ?ps ?s5] =>
      exists s5;
      change (Promise_all body ps s5)
        with (Promise_all (lossBody winner (Game._id g)) ps s5)
  end.
  split.
  { destruct (Promise_all _ _ _) as [[e|[]] [g6 w6 evs6]]; reflexivity. }
  cbn [game world emitted games users set_transactions set_users].
  split; [reflexivity|]. split; [reflexivity|]. split; [exact Hgs3|]. split.
  - intros id Hne. unfold chipsOf. cbn [users set_transactions set_users].
    rewrite lookup_insert_ne by congruence.
    specialize (Hch3 id). unfold chipsOf in Hch3. cbn [users set_users] in Hch3.
    rewrite !lookup_insert_ne in Hch3 by congruence. exact Hch3.
  - intros p Hp. specialize (Hrel p Hp). unfold released in *.
    cbn [users set_transactions set_users].
    destruct (decide (Player.user p = Player.user winner)) as [Heq|Hne].
    + rewrite Heq in *. rewrite lookup_insert_eq. rewrite Hu3 in Hrel. exact Hrel.
    + rewrite lookup_insert_ne by congruence. exact Hrel.
Qed.

Lemma loss_loop_state (R : relation Run) `{!PreOrder R} (winner : Player.t) (gameId : nat)
    (players : list Player.t) (s : Run) :
  (forall p, respects R (lossBody winner gameId p)) ->
  R s (snd (Promise_all (lossBody winner gameId) players s)).
Proof. intros Hbody. apply respects_Promise_all. exact Hbody. Qed.


(** With a loser whose balance is below the total bet the loss loop
    throws and [game.save()] is not reached. *)
Lemma endGame_unsaved (winner : Player.t) (s : Run) (u : User.t)
    (commission : Z) (q : Player.t) (cq : Z) :
  users (world s) !! Player.user winner = Some u ->
  commissionOf (commissionRate (world s)) (Game.pot (game s)) = Some commission ->
  (forall p, p ∈ Game.players (game s) -> is_Some (users (world s) !! Player.user p)) ->
  q ∈ Game.players (game s) ->
  Player.user q <> Player.user winner ->
  0 < Player.totalBet q ->
  chipsOf (Player.user q) (world s) = Some cq ->
  cq < Player.totalBet q ->
  games (world (snd (endGame winner s))) = games (world s).
Proof.
  intros Hu Hc Hall Hq Hne Hbet Hcq Hlt.
  destruct (endGame_walk winner s u commission Hu Hc Hall)
    as (s5 & -> & _ & _ & Hgs & Hch & _).
  cbn [snd].
  destruct (loss_loop_throws winner (Game._id (game s)) (Game.players (game s)) q
              Hne Hbet s5 cq Hq) as [e He]; [rewrite Hch by exact Hne; exact Hcq|exact Hlt|].
  pose proof (loss_loop_state same_games winner (Game._id (game s))
                (Game.players (game s)) s5
                (same_games_lossBody winner (Game._id (game s)))) as (_ & Hsame & _).
  destruct (Promise_all _ _ s5) as [[e'|[]] s6]; cbn [fst snd] in *; [|discriminate].
  rewrite Hsame. exact Hgs.
Qed.


(** With all users different and every loser covering the total bet, the
    settlement runs to its end and the finished game is saved. *)
Lemma endGame_saved (winner : Player.t) (s : Run) (u : User.t) (commission : Z) :
  users (world s) !! Player.user winner = Some u ->
  commissionOf (commissionRate (world s)) (Game.pot (game s)) = Some commission ->
  (forall p, p ∈ Game.players (game s) -> is_Some (users (world s) !! Player.user p)) ->
  NoDup (Player.user <$> Game.players (game s)) ->
  (forall p, p ∈ Game.players (game s) -> Player.user p <> Player.user winner ->
             0 < Player.totalBet p ->
             exists c, chipsOf (Player.user p) (world s) = Some c /\
                       Player.totalBet p <= c) ->
  games (world (snd (endGame winner s))) = declare winner (game s).
Proof.
  intros Hu Hc Hall Hnd Hcov.
  destruct (endGame_walk winner s u commission Hu Hc Hall)
    as (s5 & -> & Hg5 & _ & _ & Hch & _).
  cbn [snd].
  pose proof (loss_loop_succeeds winner (Game._id (game s)) (Game.players (game s))
                Hnd s5) as Hok.
  pose proof (loss_loop_state same_games winner (Game._id (game s))
                (Game.players (game s)) s5
                (same_games_lossBody winner (Game._id (game s)))) as (Hgame & _ & _).
  destruct (Promise_all _ _ s5) as [[e'|[]] s6]; cbn [fst snd] in *.
  - exfalso. enough (@inl Exn unit e' = inr tt) by discriminate. apply Hok.
    intros p Hp Hpw Hpb. rewrite Hch by exact Hpw. apply Hcov; assumption.
  - cbn [world games set_games]. rewrite Hgame. exact Hg5.
Qed.

Lemma elem_of_alter_folded (players : list Player.t) (i : nat) (q : Player.t) :
  q ∈ alter folded i players ->
  exists q0, q0 ∈ players /\ Player.user q = Player.user q0 /\
             Player.totalBet q = Player.totalBet q0.
Proof.
  intros Hq. apply list_elem_of_lookup in Hq as [j Hj].
  destruct (decide (i = j)) as [->|Hne].
  - rewrite list_lookup_alter_eq in Hj.
    destruct (players !! j) as [q0|] eqn:Hq0; [|discriminate].
    injection Hj as <-. exists q0. split; [eapply list_elem_of_lookup_2; eauto|].
    destruct q0; auto.
  - rewrite list_lookup_alter_ne in Hj by exact Hne.
    exists q. split; [eapply list_elem_of_lookup_2; eauto|auto].
Qed.

Lemma users_alter_folded (players : list Player.t) (i : nat) :
  Player.user <$> alter folded i players = Player.user <$> players.
Proof.
  apply list_eq. intros j. rewrite !list_lookup_fmap.
  destruct (decide (i = j)) as [->|Hne].
  - rewrite list_lookup_alter_eq. destruct (players !! j) as [[]|]; reflexivity.
  - rewrite list_lookup_alter_ne by exact Hne. reflexivity.
Qed.


Ltac each_seat Hq :=
  vm_compute in Hq;
  repeat (apply elem_of_cons in Hq as [->|Hq]; [vm_compute; eexists; reflexivity|]);
  exfalso; exact (not_elem_of_nil _ Hq).




(** In the round of the player who went all in, her fold pays Bob and
    stores nothing: the game stays active with her seat in the hand and
    the turn with her. *)
Example fold_of_the_short_loser :
  (fun w' => (Game.status (games w'), Player.inHand <$> Game.players (games w'),
              Game.currentPlayerIndex (games w'), chipsOf bob w'))
    (fst (handleGameAction world_all_in alice table_id "fold" 0))
  = (active, [true; true], 0%nat, Some 130).
Proof. vm_compute. reflexivity. Qed.
